(** * A shallow embedding of the Fibonacci script and of the local storage
      service ([fib.py], [services/storage/local.py])

    The storage service is a thin layer over [pathlib] and the operating
    system, so the embedding has three layers:

    - [PurePath]: the lexical part of [pathlib] on POSIX (parsing a string
      into an anchor and components, the [/] operator, [str], [name],
      [parent]);
    - [Disk]: a directory tree, kept as a finite map from absolute,
      normalised locations to nodes, with the kernel's path resolution and
      the [pathlib] calls the service uses ([exists], [is_dir], [is_file],
      [mkdir(parents=True, exist_ok=True)], [write_bytes], [read_bytes],
      [iterdir], [unlink]);
    - [LocalStorage]: the methods of [LocalStorageService], in a state and
      exception monad over the disk and a trace of log records and file
      operations.

    Scope of the model: one caller at a time ([await asyncio.to_thread(f, x)]
    is the call [f x]); no symbolic links, no permissions or quotas. A name
    has at most [NAME_MAX] bytes and a path fewer than [PATH_MAX], as on
    Linux: the system refuses a longer one with [ENAMETOOLONG], which
    [exists], [is_dir] and [is_file] of [pathlib] raise as [OSError] instead
    of answering [False]. A [mkdir] that fails keeps the parents it has
    created; [unlink] on a directory fails as it does on Linux. *)

From stdpp Require Import gmap strings list fin_maps pretty.
From Stdlib Require Import ZArith Lia.
From Stdlib.Strings Require Import Byte Ascii.

Open Scope string_scope.
Open Scope list_scope.

(** ** fib.py *)

Module Fib.

Open Scope Z_scope.

(** The body of [for _ in range(n)], run [k] times on the loop state
    [(result, a, b)]. *)
Fixpoint loop (k : nat) (result : list Z) (a b : Z) : list Z :=
  match k with
  | O => result
  | S k' =>
      let result := result ++ [a] in
      let next_num := a + b in
      loop k' result b next_num
  end.

Definition fibonacci (n : Z) : list Z :=
  if n <=? 0 then []
  else loop (Z.to_nat n) [] 0 1.

(** The state of the loop after [k] iterations, for the loop invariant. *)
Fixpoint pair_at (k : nat) : Z * Z :=
  match k with
  | O => (0, 1)
  | S k' => let '(a, b) := pair_at k' in (b, a + b)
  end.

Definition F (k : nat) : Z := fst (pair_at k).

End Fib.

(** ** pathlib, lexical part (POSIX flavour) *)

Module PurePath.

(** What [splitroot] finds in front of a path: nothing, one slash, or exactly
    two slashes (three or more count as one). *)
Inductive anchor := Relative | Root | DoubleRoot.

Global Instance anchor_eq_dec : EqDecision anchor.
Proof. solve_decision. Defined.

Record Path := mkPath { p_anchor : anchor; p_parts : list string }.

Global Instance Path_eq_dec : EqDecision Path.
Proof. solve_decision. Defined.

Definition slash : ascii := "/"%char.
Definition nul : ascii := "000"%char.

(** [s.split("/")]: always at least one piece. *)
Fixpoint split_slash (s : string) : list string :=
  match s with
  | EmptyString => [EmptyString]
  | String a s' =>
      if decide (a = slash) then EmptyString :: split_slash s'
      else match split_slash s' with
           | x :: xs => String a x :: xs
           | [] => [String a EmptyString]
           end
  end.

(** [len(part) - len(part.lstrip("/"))] *)
Fixpoint leading_slashes (s : string) : nat :=
  match s with
  | String a s' => if decide (a = slash) then S (leading_slashes s') else O
  | EmptyString => O
  end.

Definition splitroot (s : string) : anchor :=
  match leading_slashes s with
  | O => Relative
  | 2%nat => DoubleRoot
  | _ => Root
  end.

(** The test [if x and x != '.'] of [parse_parts]. *)
Definition kept (x : string) : bool :=
  bool_decide (x ≠ "") && bool_decide (x ≠ ".").

(** [Path(s)] *)
Definition parse (s : string) : Path :=
  mkPath (splitroot s) (filter (λ x, kept x = true) (split_slash s)).

(** [p / s]: an absolute right operand replaces the left one. *)
Definition joinpath (p : Path) (s : string) : Path :=
  let q := parse s in
  match p_anchor q with
  | Relative => mkPath (p_anchor p) (p_parts p ++ p_parts q)
  | _ => q
  end.

Fixpoint join_parts (l : list string) : string :=
  match l with
  | [] => ""
  | [x] => x
  | x :: l' => x +:+ "/" +:+ join_parts l'
  end.

Definition anchor_str (a : anchor) : string :=
  match a with Relative => "" | Root => "/" | DoubleRoot => "//" end.

(** [str(p)] *)
Definition str (p : Path) : string :=
  match p_anchor p, p_parts p with
  | Relative, [] => "."
  | a, l => anchor_str a +:+ join_parts l
  end.

(** [p.name] *)
Definition name (p : Path) : string := List.last (p_parts p) "".

(** [p.parent]; the parent of an anchor or of the empty path is itself. *)
Definition parent (p : Path) : Path :=
  mkPath (p_anchor p) (removelast (p_parts p)).

(** [iterdir] builds each child by appending the entry's name as it is. *)
Definition make_child_relpath (p : Path) (n : string) : Path :=
  mkPath (p_anchor p) (p_parts p ++ [n]).

Fixpoint has_char (c : ascii) (s : string) : bool :=
  match s with
  | EmptyString => false
  | String a s' => bool_decide (a = c) || has_char c s'
  end.

(** A plain component: what a directory entry can be called. *)
Definition plain (s : string) : Prop :=
  s ≠ "" ∧ s ≠ "." ∧ s ≠ ".." ∧ has_char slash s = false ∧ has_char nul s = false.

Global Instance plain_dec s : Decision (plain s).
Proof. unfold plain. apply _. Defined.

(** The components [parse] can produce. *)
Definition component (s : string) : Prop :=
  s ≠ "" ∧ s ≠ "." ∧ has_char slash s = false.

Definition lexical (p : Path) : Prop := Forall component (p_parts p).

End PurePath.

Notation "p // s" := (PurePath.joinpath p s) (at level 40, left associativity).

(** ** The directory tree and the file-system calls of pathlib *)

Module Disk.

Import PurePath.

Inductive node := File (content : list byte) | Dir.

Global Instance byte_eq : EqDecision byte := byte_eq_dec.

Global Instance node_eq_dec : EqDecision node.
Proof. solve_decision. Defined.

(** A location is an absolute path without [.] or [..]: the names from the
    root of the tree down to an object. *)
Abbreviation location := (list string).

Record fs := mkFs { tree : gmap location node; cwd : location }.

(** The parent of the root is the root. *)
Definition up (loc : location) : location := removelast loc.

(** The limits of Linux, in bytes: of one name, and of a whole path with
    its terminating zero. *)
Definition NAME_MAX : Z := 255.
Definition PATH_MAX : Z := 4096.

Definition len (s : string) : Z := Z.of_nat (String.length s).

Inductive lookup_error :=
  | ENOENT        (* a component does not exist *)
  | ENOTDIR       (* a component that is not the last is not a directory *)
  | ENAMETOOLONG  (* a name longer than NAME_MAX, a path longer than PATH_MAX *)
  | NulByte.      (* embedded null byte: refused before the system call *)

Inductive lookup :=
  | Found (loc : location) (n : node)
  | Missing (loc : location)  (* the parent is a directory, the last name is free *)
  | Failed (e : lookup_error).

(** Path resolution, one component at a time from [cur]. A name is looked up
    in a directory; the look-up refuses a name longer than [NAME_MAX]. *)
Fixpoint walk (t : gmap location node) (cur : location) (cs : list string) : lookup :=
  match cs with
  | [] => match t !! cur with
          | Some n => Found cur n
          | None => Failed ENOENT
          end
  | c :: cs' =>
      match t !! cur with
      | Some Dir =>
          if decide (c = "..") then walk t (up cur) cs'
          else if bool_decide (NAME_MAX < len c)%Z then Failed ENAMETOOLONG
          else match t !! (cur ++ [c]), cs' with
               | None, [] => Missing (cur ++ [c])
               | _, _ => walk t (cur ++ [c]) cs'
               end
      | Some (File _) => Failed ENOTDIR
      | None => Failed ENOENT
      end
  end.

Definition start (f : fs) (a : anchor) : location :=
  match a with Relative => cwd f | _ => [] end.

Definition path_has_nul (p : Path) : bool := existsb (has_char nul) (p_parts p).

(** Python refuses a null byte before it calls the system; the system refuses
    a path of [PATH_MAX] bytes or more before it looks anything up. *)
Definition resolve (f : fs) (p : Path) : lookup :=
  if path_has_nul p then Failed NulByte
  else if bool_decide (PATH_MAX ≤ len (str p))%Z then Failed ENAMETOOLONG
  else walk (tree f) (start f (p_anchor p)) (p_parts p).

(** A path the system accepts for a look-up. *)
Definition fits (p : Path) : Prop :=
  path_has_nul p = false ∧ (len (str p) < PATH_MAX)%Z.

(** Python's exceptions. The argument is the message given to [raise], or
    the file name when the operating system raised the error. [OSError] is an
    error of the system that has no class of its own, with its number. *)
Inductive exn :=
  | FileNotFoundError (arg : string)
  | NotADirectoryError (arg : string)
  | IsADirectoryError (arg : string)
  | FileExistsError (arg : string)
  | OSError (errno : Z) (arg : string)
  | ValueError (arg : string).

Global Instance exn_eq_dec : EqDecision exn.
Proof. solve_decision. Defined.

Definition os_error (e : lookup_error) (p : Path) : exn :=
  match e with
  | ENOENT => FileNotFoundError (str p)
  | ENOTDIR => NotADirectoryError (str p)
  | ENAMETOOLONG => OSError 36 (str p)
  | NulByte => ValueError "embedded null byte"
  end.

(** [_ignore_error]: the failures of [stat] that [exists], [is_dir] and
    [is_file] answer with [False] (ENOENT, ENOTDIR, and the [ValueError] of a
    null byte); any other is raised again. *)
Definition ignored (e : lookup_error) : bool :=
  match e with
  | ENOENT | ENOTDIR | NulByte => true
  | ENAMETOOLONG => false
  end.

Definition stat_test (test : node → bool) (f : fs) (p : Path) : exn + bool :=
  match resolve f p with
  | Found _ n => inr (test n)
  | Missing _ => inr false
  | Failed e => if ignored e then inr false else inl (os_error e p)
  end.

(** [p.exists()], [p.is_dir()], [p.is_file()] *)
Definition exists_ : fs → Path → exn + bool := stat_test (λ _, true).

Definition is_dir : fs → Path → exn + bool :=
  stat_test (λ n, match n with Dir => true | File _ => false end).

Definition is_file : fs → Path → exn + bool :=
  stat_test (λ n, match n with File _ => true | Dir => false end).

Definition set_tree (f : fs) (t : gmap location node) : fs := mkFs t (cwd f).

(** [os.mkdir(p)] *)
Definition os_mkdir (p : Path) (f : fs) : exn + fs :=
  match resolve f p with
  | Found _ _ => inl (FileExistsError (str p))
  | Missing loc => inr (set_tree f (<[loc := Dir]> (tree f)))
  | Failed e => inl (os_error e p)
  end.

(** The [except OSError] branch of [Path.mkdir] with [exist_ok=True]:
<<
        if not exist_ok or not self.is_dir():
            raise
>>
    A [ValueError] is no [OSError] and passes through; an error of
    [is_dir] itself takes the place of the one being handled. *)
Definition exist_ok (e : exn) (self : Path) (f : fs) : option exn * fs :=
  match e with
  | ValueError _ => (Some e, f)
  | _ => match is_dir f self with
         | inr true => (None, f)
         | inr false => (Some e, f)
         | inl e' => (Some e', f)
         end
  end.

(** [Path.mkdir(parents=True, exist_ok=True)] on the path with anchor [a] and
    components [reverse rparts]; the result is the exception raised, if any,
    and the disk as the call leaves it: what was created before a failure
    stays.
<<
    try:
        os.mkdir(self, mode)
    except FileNotFoundError:
        if not parents or self.parent == self:
            raise
        self.parent.mkdir(parents=True, exist_ok=True)
        self.mkdir(mode, parents=False, exist_ok=exist_ok)
    except OSError:
        if not exist_ok or not self.is_dir():
            raise
>> *)
Fixpoint mkdir_parents (a : anchor) (rparts : list string) (f : fs) : option exn * fs :=
  let self := mkPath a (reverse rparts) in
  match os_mkdir self f with
  | inr f' => (None, f')
  | inl (FileNotFoundError arg) =>
      match rparts with
      | [] => (Some (FileNotFoundError arg), f)
      | _ :: rparent =>
          match mkdir_parents a rparent f with
          | (Some e, f1) => (Some e, f1)
          | (None, f1) =>
              match os_mkdir self f1 with
              | inr f2 => (None, f2)
              | inl (FileNotFoundError arg') => (Some (FileNotFoundError arg'), f1)
              | inl e => exist_ok e self f1
              end
          end
      end
  | inl e => exist_ok e self f
  end.

Definition mkdir (p : Path) (f : fs) : option exn * fs :=
  mkdir_parents (p_anchor p) (reverse (p_parts p)) f.

(** [p.write_bytes(data)]: [open(p, "wb")] creates or truncates. *)
Definition write_bytes (p : Path) (data : list byte) (f : fs) : exn + fs :=
  match resolve f p with
  | Found loc (File _) | Missing loc => inr (set_tree f (<[loc := File data]> (tree f)))
  | Found _ Dir => inl (IsADirectoryError (str p))
  | Failed e => inl (os_error e p)
  end.

(** [p.read_bytes()] *)
Definition read_bytes (p : Path) (f : fs) : exn + list byte :=
  match resolve f p with
  | Found _ (File content) => inr content
  | Found _ Dir => inl (IsADirectoryError (str p))
  | Missing _ => inl (FileNotFoundError (str p))
  | Failed e => inl (os_error e p)
  end.

(** [p.unlink()] *)
Definition unlink (p : Path) (f : fs) : exn + fs :=
  match resolve f p with
  | Found loc (File _) => inr (set_tree f (delete loc (tree f)))
  | Found _ Dir => inl (IsADirectoryError (str p))
  | Missing _ => inl (FileNotFoundError (str p))
  | Failed e => inl (os_error e p)
  end.

(** The name under which [k] is an entry of the directory [loc], if it is. *)
Definition entry_name (loc k : location) : option string :=
  match reverse k with
  | n :: r => if decide (reverse r = loc) then Some n else None
  | [] => None
  end.

(** [os.listdir]: the names in the directory at [loc], in the order the
    enumeration of the map yields them. *)
Definition entries (t : gmap location node) (loc : location) : list string :=
  omap (entry_name loc) (elements (dom t)).

(** [p.iterdir()] *)
Definition iterdir (p : Path) (f : fs) : exn + list Path :=
  match resolve f p with
  | Found loc Dir => inr (make_child_relpath p <$> entries (tree f) loc)
  | Found _ (File _) => inl (NotADirectoryError (str p))
  | Missing _ => inl (FileNotFoundError (str p))
  | Failed e => inl (os_error e p)
  end.

(** [[file for file in children if file.is_file()]]: the tests run in order,
    and the first that raises ends the comprehension. *)
Fixpoint keep_files (f : fs) (children : list Path) : exn + list Path :=
  match children with
  | [] => inr []
  | file :: rest =>
      match is_file f file with
      | inl e => inl e
      | inr b =>
          match keep_files f rest with
          | inl e => inl e
          | inr kept => inr (if b then file :: kept else kept)
          end
      end
  end.

(** The tree [t'] is [t] with directories created along the names [pa]
    below the directory at [root], and nothing else changed. *)
Definition created_under (root : location) (pa : list string)
    (t t' : gmap location node) : Prop :=
  ∀ loc, t' !! loc = t !! loc ∨
         (t !! loc = None ∧ t' !! loc = Some Dir ∧
          ∃ pre, pre ≠ [] ∧ pre `prefix_of` pa ∧ loc = root ++ pre).

(** Whether a regular file sits at a location. *)
Definition regular (t : gmap location node) (loc : location) : bool :=
  match t !! loc with Some (File _) => true | _ => false end.

(** A tree: the root is a directory, every object sits in a directory, and
    every name is a plain component within the length a name can have. *)
Definition wf (t : gmap location node) : Prop :=
  t !! [] = Some Dir ∧
  ∀ loc n, is_Some (t !! (loc ++ [n])) →
           t !! loc = Some Dir ∧ plain n ∧ (len n ≤ NAME_MAX)%Z.

(** The same, as a check that runs on a given tree. *)
Definition wfb (t : gmap location node) : bool :=
  bool_decide (t !! [] = Some Dir) &&
  forallb (λ k, match reverse k with
                | [] => true
                | n :: r => bool_decide (t !! reverse r = Some Dir)
                            && bool_decide (plain n)
                            && bool_decide (len n ≤ NAME_MAX)%Z
                end)
          (elements (dom t)).

End Disk.

(** ** local.py: LocalStorageService *)

Module LocalStorage.

Import PurePath Disk.

Inductive level := DEBUG | INFO | WARNING | ERROR.

Inductive file_call := Mkdir | WriteBytes | ReadBytes | Unlink.

(** What an operation leaves behind apart from the disk: the records given
    to the logger and the file operations handed to the system. *)
Inductive event :=
  | Log (lvl : level) (msg : string)
  | Call (c : file_call) (p : Path).

Record world := mkWorld { files : fs; trace : list event }.

(** State and exceptions: a raised exception keeps the state reached. *)
Definition M (A : Type) : Type := world → (exn + A) * world.

Global Instance M_ret : MRet M := λ A a w, (inr a, w).

Global Instance M_bind : MBind M := λ A B k m w,
  match m w with
  | (inr a, w') => k a w'
  | (inl e, w') => (inl e, w')
  end.

Definition raise {A} (e : exn) : M A := λ w, (inl e, w).

(** [try: m  except Exception as e: h e] *)
Definition try_except {A} (m : M A) (h : exn → M A) : M A :=
  λ w, match m w with
       | (inr a, w') => (inr a, w')
       | (inl e, w') => h e w'
       end.

Definition emit (ev : event) : M unit :=
  λ w, (inr tt, mkWorld (files w) (trace w ++ [ev])).

(** The logger: advisory, never raises. [logger.exception] logs at ERROR. *)
Definition logger (lvl : level) (msg : string) : M unit := emit (Log lvl msg).

(** Running a file-system call on the disk of the current state. A call
    that changes the disk says what it raised, if anything, and how it left
    the disk. *)
Definition modify (op : fs → option exn * fs) : M unit :=
  λ w, match op (files w) with
       | (None, f') => (inr tt, mkWorld f' (trace w))
       | (Some e, f') => (inl e, mkWorld f' (trace w))
       end.

(** A query of the disk ([exists], [is_dir], [is_file], [iterdir],
    [read_bytes]): it returns or raises, and leaves the disk alone. *)
Definition read {A} (op : fs → exn + A) : M A :=
  λ w, match op (files w) with
       | inr a => (inr a, w)
       | inl e => (inl e, w)
       end.

(** A call that either changes the disk or fails and leaves it as it was. *)
Definition atomic (op : fs → exn + fs) (f : fs) : option exn * fs :=
  match op f with
  | inr f' => (None, f')
  | inl e => (Some e, f)
  end.

(** A file operation that changes the disk, and one that reads it. *)
Definition update (c : file_call) (p : Path) (op : fs → option exn * fs) : M unit :=
  emit (Call c p);; modify op.

Definition fetch {A} (c : file_call) (p : Path) (op : fs → exn + A) : M A :=
  emit (Call c p);; read op.

(** [await asyncio.to_thread(f, *args)] with one caller: the call itself. *)
Definition to_thread {A} (call : M A) : M A := call.

Record LocalStorageService := mkService { data_dir : Path; ready : bool }.

(** [__init__]: [self.data_dir = Path(settings.config_dir)]; [set_ready()]. *)
Definition init (config_dir : string) : LocalStorageService :=
  mkService (parse config_dir) true.

Section Methods.

Variable self : LocalStorageService.

Definition build_full_path (flow_id file_name : string) : string :=
  str (data_dir self // flow_id // file_name).

Definition save_file (flow_id file_name : string) (data : list byte) : M unit :=
  let folder_path := data_dir self // flow_id in
  update Mkdir folder_path (mkdir folder_path);;
  let file_path := folder_path // file_name in
  let write_file (file_path : Path) (data : list byte) : M unit :=
    update WriteBytes file_path (atomic (write_bytes file_path data)) in
  try_except
    (to_thread (write_file file_path data);;
     logger INFO ("File " +:+ file_name +:+ " saved successfully in flow " +:+ flow_id +:+ "."))
    (λ e,
       logger ERROR ("Error saving file " +:+ file_name +:+ " in flow " +:+ flow_id);;
       raise e).

Definition get_file (flow_id file_name : string) : M (list byte) :=
  let file_path := data_dir self // flow_id // file_name in
  present ← read (λ f, exists_ f file_path);
  if negb present then
    logger WARNING ("File " +:+ file_name +:+ " not found in flow " +:+ flow_id +:+ ".");;
    let msg := "File " +:+ file_name +:+ " not found in flow " +:+ flow_id in
    raise (FileNotFoundError msg)
  else
    let read_file (file_path : Path) : M (list byte) :=
      fetch ReadBytes file_path (read_bytes file_path) in
    content ← to_thread (read_file file_path);
    logger DEBUG ("File " +:+ file_name +:+ " retrieved successfully from flow " +:+ flow_id +:+ ".");;
    mret content.

Definition list_files (flow_id : string) : M (list string) :=
  let folder_path := data_dir self // flow_id in
  present ← read (λ f, exists_ f folder_path);
  absent ← (if negb present then mret true
            else dir ← read (λ f, is_dir f folder_path); mret (negb dir));
  if (absent : bool) then
    logger WARNING ("Flow " +:+ flow_id +:+ " directory does not exist.");;
    let msg := "Flow " +:+ flow_id +:+ " directory does not exist." in
    raise (FileNotFoundError msg)
  else
    children ← read (iterdir folder_path);
    kept ← read (λ f, keep_files f children);
    let names : list string := name <$> kept in
    logger INFO ("Listed " +:+ pretty (length names) +:+ " files in flow " +:+ flow_id +:+ ".");;
    mret names.

Definition delete_file (flow_id file_name : string) : M unit :=
  let file_path := data_dir self // flow_id // file_name in
  present ← read (λ f, exists_ f file_path);
  if (present : bool) then
    update Unlink file_path (atomic (unlink file_path));;
    logger INFO ("File " +:+ file_name +:+ " deleted successfully from flow " +:+ flow_id +:+ ".")
  else
    logger WARNING ("Attempted to delete non-existent file " +:+ file_name +:+ " in flow " +:+ flow_id +:+ ".").

Definition teardown : M unit := mret tt.

(** The operations a caller can issue, and the state one of them leaves,
    whether it returned or raised. *)
Inductive op :=
  | Save (flow_id file_name : string) (data : list byte)
  | Get (flow_id file_name : string)
  | ListFiles (flow_id : string)
  | Delete (flow_id file_name : string)
  | Teardown.

Definition step (o : op) (w : world) : world :=
  match o with
  | Save flow_id file_name data => (save_file flow_id file_name data w).2
  | Get flow_id file_name => (get_file flow_id file_name w).2
  | ListFiles flow_id => (list_files flow_id w).2
  | Delete flow_id file_name => (delete_file flow_id file_name w).2
  | Teardown => (teardown w).2
  end.

Inductive reachable (w0 : world) : world → Prop :=
  | reachable_init : reachable w0 w0
  | reachable_step o w : reachable w0 w → reachable w0 (step o w).

(** An operation whose flow id and file name are plain names. *)
Definition op_plain (o : op) : Prop :=
  match o with
  | Save flow_id file_name _ | Get flow_id file_name | Delete flow_id file_name =>
      plain flow_id ∧ plain file_name
  | ListFiles flow_id => plain flow_id
  | Teardown => True
  end.

(** The key an operation writes or removes, if it does. *)
Definition op_key (o : op) : option (string * string) :=
  match o with
  | Save flow_id file_name _ | Delete flow_id file_name => Some (flow_id, file_name)
  | Get _ _ | ListFiles _ | Teardown => None
  end.

(** A sequence of operations, one after the other. *)
Definition run_ops (os : list op) (w : world) : world :=
  foldl (λ w o, step o w) w os.

End Methods.

(** The components a flow id or a file name adds to a path. *)
Definition parts_of (s : string) : list string := p_parts (parse s).

(** A name that stays below the path it is joined to: not absolute, and
    without a [..] component. *)
Definition inside (s : string) : Prop :=
  p_anchor (parse s) = Relative ∧ ".." ∉ parts_of s.

Global Instance inside_dec s : Decision (inside s).
Proof. unfold inside. apply _. Defined.

(** An operation that writes or removes below the root: its flow id names
    at least one directory, and both names stay inside. *)
Definition op_inside (o : op) : Prop :=
  match o with
  | Save flow_id file_name _ | Delete flow_id file_name =>
      inside flow_id ∧ parts_of flow_id ≠ [] ∧ inside file_name
  | Get _ _ | ListFiles _ | Teardown => True
  end.

Global Instance op_inside_dec o : Decision (op_inside o).
Proof. destruct o; simpl; apply _. Defined.

(** What the operation [o] may have changed at [loc], with the root
    directory at [root]: a save creates directories along its flow id and
    puts its bytes in the regular file at [root/flow_id/file_name]; a delete
    removes the regular file at [root/flow_id/file_name]; no other operation
    changes anything. *)
Definition op_change (root : location) (o : op) (t t' : gmap location node)
    (loc : location) : Prop :=
  match o with
  | Save flow_id file_name data =>
      (∃ pre, pre ≠ [] ∧ pre `prefix_of` parts_of flow_id ∧ loc = root ++ pre ∧
              t !! loc = None ∧ t' !! loc = Some Dir) ∨
      (loc = root ++ parts_of flow_id ++ parts_of file_name ∧
       parts_of file_name ≠ [] ∧
       t !! loc ≠ Some Dir ∧ t' !! loc = Some (File data))
  | Delete flow_id file_name =>
      loc = root ++ parts_of flow_id ++ parts_of file_name ∧
      (∃ content, t !! loc = Some (File content)) ∧ t' !! loc = None
  | Get _ _ | ListFiles _ | Teardown => False
  end.

(** A flow id or a file name written as components that are not empty and
    not [.], with one slash between them: not absolute, no trailing slash. *)
Definition clean (s : string) : Prop :=
  Forall (λ x, kept x = true) (split_slash s).

Global Instance clean_dec s : Decision (clean s).
Proof. unfold clean. apply _. Defined.

(** The messages of the log records and of the exceptions raised. *)
Definition saved_msg (flow_id file_name : string) : string :=
  "File " +:+ file_name +:+ " saved successfully in flow " +:+ flow_id +:+ ".".
Definition save_error_msg (flow_id file_name : string) : string :=
  "Error saving file " +:+ file_name +:+ " in flow " +:+ flow_id.
Definition not_found_msg (flow_id file_name : string) : string :=
  "File " +:+ file_name +:+ " not found in flow " +:+ flow_id.
Definition retrieved_msg (flow_id file_name : string) : string :=
  "File " +:+ file_name +:+ " retrieved successfully from flow " +:+ flow_id +:+ ".".
Definition no_flow_msg (flow_id : string) : string :=
  "Flow " +:+ flow_id +:+ " directory does not exist.".
Definition listed_msg (flow_id : string) (count : nat) : string :=
  "Listed " +:+ pretty count +:+ " files in flow " +:+ flow_id +:+ ".".
Definition deleted_msg (flow_id file_name : string) : string :=
  "File " +:+ file_name +:+ " deleted successfully from flow " +:+ flow_id +:+ ".".
Definition delete_missing_msg (flow_id file_name : string) : string :=
  "Attempted to delete non-existent file " +:+ file_name +:+ " in flow " +:+ flow_id +:+ ".".

End LocalStorage.

(** ** Sample states *)

Module Sample.

Import PurePath Disk LocalStorage.

Definition svc : LocalStorageService := init "/data".

(** A disk holding only the root directory [/data] of the service. *)
Definition bare : fs := mkFs (<[ ["data"] := Dir ]> {[ [] := Dir ]}) [].

(** A disk on which flow [f1] holds the file [a.txt] and the directory [sub],
    with a file in it. *)
Definition nested : fs :=
  mkFs (<[ ["data"; "f1"; "sub"; "b.txt"] := File ["b"%byte] ]>
        (<[ ["data"; "f1"; "sub"] := Dir ]>
         (<[ ["data"; "f1"; "a.txt"] := File ["a"%byte] ]>
          (<[ ["data"; "f1"] := Dir ]> (tree bare))))) [].

(** A disk on which the root directory of the service does not exist. *)
Definition rootless : fs := mkFs {[ [] := Dir ]} [].

Definition fresh (f : fs) : world := mkWorld f [].

(** [bare] after [mkdir] of the flow directory [/data/f1]. *)
Definition with_flow : fs := mkFs (<[ ["data"; "f1"] := Dir ]> (tree bare)) [].

(** The states after saving first the empty file, then one byte. *)
Definition saved_empty : world := (save_file svc "f1" "x.txt" [] (fresh bare)).2.
Definition saved_again : world := (save_file svc "f1" "x.txt" ["x"%byte] saved_empty).2.

End Sample.

(** ** More sample states *)

Module Sample2.

Import PurePath Disk LocalStorage Sample.

(** A disk on which a regular file sits where flow [f1] would have its
    directory. *)
Definition clash : fs :=
  mkFs (<[ ["data"; "f1"] := File ["z"%byte] ]> (tree bare)) [].

(** The state after saving one byte under the flow [f1/a] and the name [b]. *)
Definition saved_deep : world := (save_file svc "f1/a" "b" ["d"%byte] (fresh bare)).2.

(** The state after deleting the file [a.txt] of flow [f1] on [nested]. *)
Definition deleted_once : world := (delete_file svc "f1" "a.txt" (fresh nested)).2.

(** A name of 256 bytes, one more than a name can have. *)
Definition long_name : string := String.string_of_list_ascii (replicate 256 "a"%char).

(** A root directory sixteen levels down, each level a name of 250 bytes:
    its path has 4016 bytes, so the path of a flow fits in [PATH_MAX] and the
    path of a file in that flow, with a name of 100 bytes, does not. *)
Definition level_name : string := String.string_of_list_ascii (replicate 250 "a"%char).
Definition deep_root : list string := replicate 16 level_name.
Definition entry_100 : string := String.string_of_list_ascii (replicate 100 "b"%char).

Definition deep_svc : LocalStorageService := mkService (mkPath Root deep_root) true.

Definition chain (base : gmap location node) (names : list string) : gmap location node :=
  foldl (λ t k, <[take k names := Dir]> t) base (seq 1 (length names)).

(** The tree with the root directory, the flow [f] in it, and in the flow
    one regular file, put there through a shorter path. *)
Definition deep : fs :=
  mkFs (<[ deep_root ++ ["f"; entry_100] := File ["b"%byte] ]>
        (<[ deep_root ++ ["f"] := Dir ]> (chain {[ [] := Dir ]} deep_root))) [].

End Sample2.

(** * Properties *)

(** ** fib.py *)

Module FibFacts.

Import Fib.
Open Scope Z_scope.

Lemma pair_at_snd k : snd (pair_at k) = F (S k).
Proof. unfold F. simpl. destruct (pair_at k). reflexivity. Qed.

Lemma F_step k : F (S (S k)) = F k + F (S k).
Proof.
  unfold F at 1. simpl. rewrite <- (pair_at_snd k). unfold F.
  destruct (pair_at k) as [a b]. simpl. lia.
Qed.

(** Loop invariant: entering iteration [j] with [a = F j] and [b = F (j+1)],
    [k] more iterations append [F j, ..., F (j+k-1)]. *)
Lemma loop_inv k : ∀ j result,
  loop k result (F j) (F (S j)) = result ++ (F <$> seq j k).
Proof.
  induction k as [|k IH]; intros j result; simpl.
  - by rewrite app_nil_r.
  - rewrite <- F_step, IH, <- app_assoc. reflexivity.
Qed.

Lemma fibonacci_closed n :
  fibonacci n = F <$> seq 0 (Z.to_nat n).
Proof.
  unfold fibonacci. destruct (Z.leb_spec n 0) as [Hn|Hn].
  - replace (Z.to_nat n) with O by lia. reflexivity.
  - apply (loop_inv (Z.to_nat n) 0%nat []).
Qed.

Lemma fibonacci_lookup n (i : nat) :
  (i < Z.to_nat n)%nat → fibonacci n !! i = Some (F i).
Proof.
  intros Hi. rewrite fibonacci_closed, list_lookup_fmap, lookup_seq_lt by done.
  reflexivity.
Qed.

(** C9. [fibonacci n] is empty for [n <= 0]; for [n > 0] it has exactly [n]
    elements, the first is 0, the second (when there is one) is 1, and each
    later element is the sum of the two before it. *)
Theorem fibonacci_spec (n : Z) :
  (n ≤ 0 → fibonacci n = []) ∧
  (0 < n →
     Z.of_nat (length (fibonacci n)) = n ∧
     fibonacci n !! 0%nat = Some 0 ∧
     (2 ≤ n → fibonacci n !! 1%nat = Some 1) ∧
     ∀ i : nat, (2 ≤ i)%nat → Z.of_nat i < n →
       ∃ x y z, fibonacci n !! (i - 2)%nat = Some x ∧
                fibonacci n !! (i - 1)%nat = Some y ∧
                fibonacci n !! i = Some z ∧ z = x + y).
Proof.
  split.
  - intros Hn. unfold fibonacci. destruct (Z.leb_spec n 0); [done | lia].
  - intros Hn. repeat split.
    + rewrite fibonacci_closed, length_fmap, length_seq. lia.
    + rewrite fibonacci_lookup by lia. reflexivity.
    + intros H2. rewrite fibonacci_lookup by lia. reflexivity.
    + intros i Hi Hin. exists (F (i - 2)), (F (i - 1)), (F i).
      rewrite !fibonacci_lookup by lia. repeat split.
      destruct i as [|[|i]]; [lia | lia |].
      replace (S (S i) - 2)%nat with i by lia.
      replace (S (S i) - 1)%nat with (S i) by lia.
      apply F_step.
Qed.

Lemma fibonacci_spec_witness :
  fibonacci (-3) = [] ∧
  Z.of_nat (length (fibonacci 7)) = 7 ∧
  fibonacci 7 !! 0%nat = Some 0 ∧
  fibonacci 7 !! 1%nat = Some 1 ∧
  ∃ x y z, fibonacci 7 !! 4%nat = Some x ∧ fibonacci 7 !! 5%nat = Some y ∧
           fibonacci 7 !! 6%nat = Some z ∧ z = x + y.
Proof.
  destruct (fibonacci_spec (-3)) as [Hneg _].
  destruct (fibonacci_spec 7) as [_ Hpos].
  destruct Hpos as (Hlen & H0 & H1 & Hsum); [lia |].
  split; [apply Hneg; lia |].
  split; [exact Hlen |].
  split; [exact H0 |].
  split; [apply H1; lia |].
  apply (Hsum 6%nat); lia.
Defined.

End FibFacts.

(** ** pathlib, lexical part *)

Module PathFacts.

Import PurePath.

Lemma split_slash_cons s : ∃ x xs, split_slash s = x :: xs.
Proof.
  induction s as [|a s IH]; simpl; [by eauto |].
  destruct (decide (a = slash)); [by eauto |].
  destruct IH as (x & xs & ->). by eauto.
Qed.

(** A string without a slash is one piece. *)
Lemma split_slash_single s : has_char slash s = false → split_slash s = [s].
Proof.
  induction s as [|a s IH]; simpl; [done |].
  intros [Ha Hs]%orb_false_elim. apply bool_decide_eq_false in Ha.
  destruct (decide (a = slash)); [done |]. by rewrite IH.
Qed.

(** No piece of a split contains a slash. *)
Lemma split_slash_pieces s : Forall (λ x, has_char slash x = false) (split_slash s).
Proof.
  induction s as [|a s IH]; simpl; [by repeat constructor |].
  destruct (decide (a = slash)) as [|Ha]; [by constructor |].
  destruct (split_slash s) as [|x xs]; [by repeat constructor; simpl; rewrite bool_decide_eq_false_2 |].
  inversion_clear IH. constructor; [|done].
  simpl. by rewrite bool_decide_eq_false_2.
Qed.

Lemma leading_slashes_none s : has_char slash s = false → leading_slashes s = O.
Proof.
  destruct s as [|a s]; simpl; [done |].
  intros [Ha _]%orb_false_elim. apply bool_decide_eq_false in Ha.
  by destruct (decide (a = slash)).
Qed.

Lemma kept_spec x : kept x = true ↔ x ≠ "" ∧ x ≠ ".".
Proof.
  unfold kept. rewrite andb_true_iff, !bool_decide_eq_true. done.
Qed.

(** [Path(n)] for a single name is the relative path with that one part. *)
Lemma parse_single n :
  n ≠ "" → n ≠ "." → has_char slash n = false → parse n = mkPath Relative [n].
Proof.
  intros H1 H2 Hs. unfold parse, splitroot.
  rewrite leading_slashes_none, split_slash_single by done.
  rewrite filter_cons_True by (by apply kept_spec). reflexivity.
Qed.

Lemma joinpath_single p n :
  n ≠ "" → n ≠ "." → has_char slash n = false →
  p // n = make_child_relpath p n.
Proof. intros. unfold joinpath. by rewrite parse_single. Qed.

Lemma joinpath_plain p n : plain n → p // n = make_child_relpath p n.
Proof. intros (? & ? & _ & ? & _). by apply joinpath_single. Qed.

Lemma parse_lexical s : lexical (parse s).
Proof.
  unfold lexical, parse. simpl. apply Forall_forall. intros x Hx.
  apply list_elem_of_filter in Hx as [Hk Hx]. apply kept_spec in Hk as [? ?].
  pose proof (split_slash_pieces s) as Hall.
  rewrite Forall_forall in Hall. split_and!; auto.
Qed.

Lemma joinpath_lexical p s : lexical p → lexical (p // s).
Proof.
  intros Hp. pose proof (parse_lexical s) as Hq. unfold joinpath.
  destruct (p_anchor (parse s)); [|done..].
  unfold lexical in *. simpl. by apply Forall_app.
Qed.

Lemma name_child p n : name (make_child_relpath p n) = n.
Proof. unfold name. simpl. apply List.last_last. Qed.

Lemma append_assoc (s1 s2 s3 : string) : (s1 +:+ s2) +:+ s3 = s1 +:+ (s2 +:+ s3).
Proof.
  induction s1 as [|a s1 IH]; [done |].
  change (String a ((s1 +:+ s2) +:+ s3) = String a (s1 +:+ s2 +:+ s3)).
  by f_equal.
Qed.

Lemma join_parts_snoc l x :
  l ≠ [] → join_parts (l ++ [x]) = join_parts l +:+ "/" +:+ x.
Proof.
  induction l as [|y l IH]; [done |]. intros _.
  destruct l as [|z l]; [done |].
  change (join_parts ((y :: z :: l) ++ [x])) with (y +:+ "/" +:+ join_parts ((z :: l) ++ [x])).
  rewrite IH by done.
  change (join_parts (y :: z :: l)) with (y +:+ "/" +:+ join_parts (z :: l)).
  by rewrite !append_assoc.
Qed.

(** For plain names and a root with at least one component, the string of
    [root / flow / file] is the three strings put together with slashes. *)
Lemma str_join_plain p a b :
  p_parts p ≠ [] → plain a → plain b →
  str (p // a // b) = str p +:+ "/" +:+ a +:+ "/" +:+ b.
Proof.
  intros Hp Ha Hb. rewrite !joinpath_plain by done.
  unfold str, make_child_relpath. simpl.
  destruct (p_parts p) as [|x l] eqn:E; [done |].
  assert (∀ an, match an with
                | Relative | _ => anchor_str an +:+ join_parts (((x :: l) ++ [a]) ++ [b])
                end = anchor_str an +:+ join_parts (x :: l) +:+ "/" +:+ a +:+ "/" +:+ b) as Hgen.
  { intros an. rewrite !join_parts_snoc by (by destruct l).
    destruct an; by rewrite ?append_assoc. }
  destruct (p_anchor p); simpl.
  - destruct l; simpl; apply (Hgen Relative).
  - apply (Hgen Root).
  - apply (Hgen DoubleRoot).
Qed.

End PathFacts.

(** ** Path resolution *)

Module DiskFacts.

Import PurePath Disk PathFacts.

Implicit Types (t : gmap location node) (cur loc : location) (cs : list string).

Lemma walk_found t cs : ∀ cur loc n,
  walk t cur cs = Found loc n → t !! loc = Some n.
Proof.
  induction cs as [|c cs IH]; intros cur loc n; simpl.
  - destruct (t !! cur) eqn:E; [|done]. by intros [= <- <-].
  - destruct (t !! cur) as [[]|]; [done | | done].
    destruct (decide (c = "..")); [by apply IH |].
    destruct (bool_decide (NAME_MAX < len c)%Z); [done |].
    destruct (t !! (cur ++ [c])), cs; try done; by apply IH.
Qed.

(** A missing last component: its directory exists, and the name comes from
    the path and is within the length a name can have. *)
Lemma walk_missing t cs : ∀ cur loc,
  walk t cur cs = Missing loc →
  ∃ l c, loc = l ++ [c] ∧ c ∈ cs ∧ c ≠ ".." ∧ (len c ≤ NAME_MAX)%Z ∧
         t !! l = Some Dir ∧ t !! loc = None.
Proof.
  induction cs as [|c cs IH]; intros cur loc; simpl.
  - by destruct (t !! cur).
  - assert (∀ cur', walk t cur' cs = Missing loc →
      ∃ l c0, loc = l ++ [c0] ∧ c0 ∈ c :: cs ∧ c0 ≠ ".." ∧ (len c0 ≤ NAME_MAX)%Z ∧
              t !! l = Some Dir ∧ t !! loc = None) as IH'.
    { intros cur' (l & c' & ? & ? & ?)%IH. exists l, c'.
      split; [done |]. split; [by right | done]. }
    destruct (t !! cur) as [[]|] eqn:Ecur; [done | | done].
    destruct (decide (c = "..")); [apply IH' |].
    destruct (bool_decide (NAME_MAX < len c)%Z) eqn:Hlen; [done |].
    apply bool_decide_eq_false in Hlen.
    destruct (t !! (cur ++ [c])) eqn:Ec; [apply IH' |].
    destruct cs as [|c2 cs]; [|apply IH'].
    intros [= <-]. exists cur, c. split_and!; [done | by left | done | lia | done..].
Qed.

(** Resolution of a longer path goes on from where the prefix arrived. *)
Lemma walk_app t cs cs2 : ∀ cur loc n,
  walk t cur cs = Found loc n → walk t cur (cs ++ cs2) = walk t loc cs2.
Proof.
  induction cs as [|c cs IH]; intros cur loc n; simpl.
  - destruct (t !! cur) eqn:Ecur; [|done]. intros [= <- <-].
    destruct cs2 as [|c2 cs2]; simpl; by rewrite Ecur.
  - destruct (t !! cur) as [[]|]; [done | | done].
    destruct (decide (c = "..")); [by apply IH |].
    destruct (bool_decide (NAME_MAX < len c)%Z); [done |].
    destruct (t !! (cur ++ [c])) eqn:Ec.
    + intros H. rewrite <- (IH _ _ _ H). by destruct (cs ++ cs2).
    + destruct cs as [|c2 cs]; [done |]. simpl. by rewrite Ec.
Qed.

(** Resolving one more name below a directory. *)
Lemma walk_child t loc c :
  t !! loc = Some Dir → c ≠ ".." → (len c ≤ NAME_MAX)%Z →
  walk t loc [c] = match t !! (loc ++ [c]) with
                   | Some n => Found (loc ++ [c]) n
                   | None => Missing (loc ++ [c])
                   end.
Proof.
  intros Hloc Hc Hlen. simpl. rewrite Hloc, decide_False by done.
  rewrite bool_decide_eq_false_2 by lia.
  by destruct (t !! (loc ++ [c])).
Qed.

(** Without [..] a path leads to the location its components spell. *)
Lemma walk_inside t cs : ∀ cur,
  ".." ∉ cs →
  match walk t cur cs with
  | Found loc _ | Missing loc => loc = cur ++ cs
  | Failed _ => True
  end.
Proof.
  induction cs as [|c cs IH]; intros cur Hcs; simpl.
  - destruct (t !! cur); [by rewrite app_nil_r | done].
  - destruct (t !! cur) as [[]|]; [done | | done].
    rewrite decide_False by (intros ->; apply Hcs; by left).
    destruct (bool_decide (NAME_MAX < len c)%Z); [done |].
    assert (".." ∉ cs) as Hcs' by (intros ?; apply Hcs; by right).
    specialize (IH (cur ++ [c]) Hcs'). rewrite <- app_assoc in IH. simpl in IH.
    destruct (t !! (cur ++ [c])), cs; try done.
Qed.

(** Putting an object where there was no directory: paths that resolved go
    on resolving, to the new object if they led there. *)
Lemma walk_insert t loc v cs : ∀ cur,
  t !! loc ≠ Some Dir →
  match walk t cur cs with
  | Found l n =>
      walk (<[loc := v]> t) cur cs = Found l (if decide (l = loc) then v else n)
  | Missing l =>
      walk (<[loc := v]> t) cur cs = if decide (l = loc) then Found loc v else Missing l
  | Failed _ => True
  end.
Proof.
  intros cur Hloc. revert cur.
  induction cs as [|c cs IH]; intros cur; simpl.
  - destruct (t !! cur) as [n|] eqn:Ecur; [|done].
    rewrite lookup_insert. destruct (decide (loc = cur)) as [->|Hne].
    + by rewrite decide_True.
    + rewrite decide_False by done. by rewrite Ecur.
  - destruct (t !! cur) as [[]|] eqn:Ecur; [done | | done].
    assert (loc ≠ cur) as Hne by congruence.
    rewrite lookup_insert_ne, Ecur by done.
    destruct (decide (c = "..")) as [|Hc]; [apply IH |].
    destruct (bool_decide (NAME_MAX < len c)%Z); [done |].
    destruct (t !! (cur ++ [c])) as [nd|] eqn:Ec.
    + assert (is_Some (<[loc:=v]> t !! (cur ++ [c]))) as [n' ->].
      { rewrite lookup_insert. case_decide; eauto. }
      specialize (IH (cur ++ [c])). by destruct cs.
    + destruct cs as [|c2 cs].
      * rewrite lookup_insert. destruct (decide (loc = cur ++ [c])) as [->|Hne'].
        -- rewrite decide_True by done. simpl. by rewrite lookup_insert_eq.
        -- rewrite decide_False by done. by rewrite Ec.
      * specialize (IH (cur ++ [c])).
        by destruct (<[loc:=v]> t !! (cur ++ [c])).
Qed.

(** Removing a file: a path that led to it does not resolve any more, every
    other path resolves as before. *)
Lemma walk_delete t loc x cs : ∀ cur,
  t !! loc = Some (File x) →
  match walk t cur cs with
  | Found l n =>
      if decide (l = loc)
      then walk (delete loc t) cur cs = Missing loc ∨
           walk (delete loc t) cur cs = Failed ENOENT
      else walk (delete loc t) cur cs = Found l n
  | Missing l => walk (delete loc t) cur cs = Missing l
  | Failed _ => True
  end.
Proof.
  intros cur Hloc. revert cur.
  induction cs as [|c cs IH]; intros cur; simpl.
  - destruct (t !! cur) as [n|] eqn:Ecur; [|done].
    destruct (decide (cur = loc)) as [->|Hne].
    + rewrite lookup_delete_eq. by right.
    + by rewrite lookup_delete_ne, Ecur.
  - destruct (t !! cur) as [[]|] eqn:Ecur; [done | | done].
    assert (loc ≠ cur) as Hne by congruence.
    rewrite lookup_delete_ne, Ecur by done.
    destruct (decide (c = "..")) as [|Hc]; [apply IH |].
    destruct (bool_decide (NAME_MAX < len c)%Z); [done |].
    destruct (t !! (cur ++ [c])) as [nd|] eqn:Ec.
    + destruct (decide (loc = cur ++ [c])) as [->|Hne'].
      * rewrite lookup_delete_eq. destruct cs as [|c2 cs].
        -- simpl. rewrite Ec, decide_True by done. by left.
        -- specialize (IH (cur ++ [c])). by destruct (walk t (cur ++ [c]) (c2 :: cs)).
      * rewrite lookup_delete_ne, Ec by done.
        specialize (IH (cur ++ [c])). by destruct cs.
    + assert (delete loc t !! (cur ++ [c]) = None) as ->.
      { rewrite lookup_delete. by case_decide. }
      destruct cs as [|c2 cs]; [done |]. apply IH.
Qed.

(** A path that resolves with one more name at its end resolved to a
    directory before that name. *)
Lemma walk_snoc t cs n : ∀ cur l,
  n ≠ ".." →
  (∃ nd, walk t cur (cs ++ [n]) = Found l nd) ∨ walk t cur (cs ++ [n]) = Missing l →
  ∃ loc, walk t cur cs = Found loc Dir ∧ l = loc ++ [n] ∧ (len n ≤ NAME_MAX)%Z.
Proof.
  intros cur l Hn. revert cur.
  induction cs as [|c cs IH]; intros cur; simpl.
  - destruct (t !! cur) as [[]|] eqn:Ecur; [by intros [[? ?]|?] | | by intros [[? ?]|?]].
    rewrite decide_False by done.
    destruct (bool_decide (NAME_MAX < len n)%Z) eqn:Hlen; [by intros [[? ?]|?] |].
    apply bool_decide_eq_false in Hlen.
    destruct (t !! (cur ++ [n])) eqn:En.
    + intros [[nd [= <- <-]] | ?]; [|done]. exists cur. split_and!; [done | done | lia].
    + intros [[nd ?] | [= <-]]; [done |]. exists cur. split_and!; [done | done | lia].
  - destruct (t !! cur) as [[]|] eqn:Ecur; [by intros [[? ?]|?] | | by intros [[? ?]|?]].
    destruct (decide (c = "..")) as [|Hc]; [apply IH |].
    destruct (bool_decide (NAME_MAX < len c)%Z); [by intros [[? ?]|?] |].
    intros H.
    assert ((∃ nd, walk t (cur ++ [c]) (cs ++ [n]) = Found l nd) ∨
            walk t (cur ++ [c]) (cs ++ [n]) = Missing l) as H'.
    { destruct (t !! (cur ++ [c])); [done |]. by destruct cs. }
    apply IH in H' as (loc & Hloc & -> & Hlen). exists loc. split; [|done].
    destruct (t !! (cur ++ [c])) eqn:Ec; [by destruct cs |].
    destruct cs as [|c2 cs]; [|done]. simpl in Hloc. by rewrite Ec in Hloc.
Qed.

(** *** Lengths of path strings *)

Lemma len_append (s1 s2 : string) : len (s1 +:+ s2) = (len s1 + len s2)%Z.
Proof.
  unfold len. induction s1 as [|a s1 IH]; [done |].
  change (String a s1 +:+ s2) with (String a (s1 +:+ s2)).
  cbn [String.length]. lia.
Qed.

Lemma len_nonneg (s : string) : (0 ≤ len s)%Z.
Proof. unfold len. lia. Qed.

Lemma len_nonempty (s : string) : s ≠ "" → (1 ≤ len s)%Z.
Proof. destruct s; [done |]. unfold len. cbn [String.length]. lia. Qed.

Lemma str_child p n :
  str (make_child_relpath p n)
  = match p_parts p with
    | [] => anchor_str (p_anchor p) +:+ n
    | _ => str p +:+ "/" +:+ n
    end.
Proof.
  destruct p as [a l]. unfold str, make_child_relpath.
  destruct l as [|x l]; [by destruct a |].
  assert (join_parts (x :: l ++ [n]) = join_parts (x :: l) +:+ "/" +:+ n) as Hj
    by (by apply (join_parts_snoc (x :: l))).
  destruct a; cbn [p_anchor p_parts app]; rewrite Hj; by rewrite append_assoc.
Qed.

Lemma len_anchor a :
  (len (anchor_str a) ≤ len (str (mkPath a [])) + 1)%Z ∧
  (len (str (mkPath a [])) ≤ len (anchor_str a) + 1)%Z.
Proof. by destruct a. Qed.

Lemma len_child_le p n :
  (len (str (make_child_relpath p n)) ≤ len (str p) + 1 + len n)%Z.
Proof.
  rewrite str_child. destruct p as [a l]. cbn [p_parts p_anchor].
  destruct l as [|x l].
  - rewrite len_append. pose proof (len_anchor a) as [? _]. lia.
  - rewrite !len_append. change (len "/") with 1%Z. lia.
Qed.

Lemma len_child_ge p n :
  n ≠ "" → (len (str p) ≤ len (str (make_child_relpath p n)))%Z.
Proof.
  intros Hn%len_nonempty. rewrite str_child. destruct p as [a l].
  cbn [p_parts p_anchor]. destruct l as [|x l].
  - rewrite len_append. pose proof (len_anchor a) as [_ ?]. lia.
  - rewrite !len_append. change (len "/") with 1%Z. lia.
Qed.

(** *** The same facts for [resolve] *)

Implicit Types (f : fs) (p : Path).

Lemma resolve_fits f p :
  fits p → resolve f p = walk (tree f) (start f (p_anchor p)) (p_parts p).
Proof.
  intros [Hnul Hlen]. unfold resolve. rewrite Hnul.
  by rewrite bool_decide_eq_false_2 by lia.
Qed.

(** Only a path the system accepts resolves. *)
Lemma resolve_is_walk f p :
  match resolve f p with
  | Found _ _ | Missing _ =>
      fits p ∧ resolve f p = walk (tree f) (start f (p_anchor p)) (p_parts p)
  | Failed _ => True
  end.
Proof.
  unfold resolve, fits. destruct (path_has_nul p); [done |].
  destruct (bool_decide (PATH_MAX ≤ len (str p))%Z) eqn:Hlen; [done |].
  apply bool_decide_eq_false in Hlen.
  destruct (walk _ _ _); try done; split; try done; split; try done; lia.
Qed.

Lemma resolve_found f p loc n :
  resolve f p = Found loc n → tree f !! loc = Some n ∧ fits p.
Proof.
  intros H. pose proof (resolve_is_walk f p) as Hw. rewrite H in Hw.
  destruct Hw as [Hfits Hw]. split; [|done]. symmetry in Hw. by apply walk_found in Hw.
Qed.

Lemma resolve_missing f p loc :
  resolve f p = Missing loc →
  fits p ∧
  ∃ l c, loc = l ++ [c] ∧ c ∈ p_parts p ∧ c ≠ ".." ∧ (len c ≤ NAME_MAX)%Z ∧
         tree f !! l = Some Dir ∧ tree f !! loc = None.
Proof.
  intros H. pose proof (resolve_is_walk f p) as Hw. rewrite H in Hw.
  destruct Hw as [Hfits Hw]. split; [done |]. symmetry in Hw. by apply walk_missing in Hw.
Qed.

Lemma resolve_missing_None f p loc :
  resolve f p = Missing loc → tree f !! loc = None.
Proof. by intros (_ & _ & _ & _ & _ & _ & _ & _ & ?)%resolve_missing. Qed.

Lemma resolve_insert f p loc v :
  tree f !! loc ≠ Some Dir →
  match resolve f p with
  | Found l n =>
      resolve (set_tree f (<[loc := v]> (tree f))) p
      = Found l (if decide (l = loc) then v else n)
  | Missing l =>
      resolve (set_tree f (<[loc := v]> (tree f))) p
      = if decide (l = loc) then Found loc v else Missing l
  | Failed _ => True
  end.
Proof.
  intros Hloc. unfold resolve. simpl. destruct (path_has_nul p); [done |].
  destruct (bool_decide _); [done |].
  apply (walk_insert (tree f) loc v (p_parts p) (start f (p_anchor p)) Hloc).
Qed.

Lemma resolve_delete f p loc x :
  tree f !! loc = Some (File x) →
  match resolve f p with
  | Found l n =>
      if decide (l = loc)
      then exists_ (set_tree f (delete loc (tree f))) p = inr false
      else resolve (set_tree f (delete loc (tree f))) p = Found l n
  | Missing l => resolve (set_tree f (delete loc (tree f))) p = Missing l
  | Failed _ => True
  end.
Proof.
  intros Hloc. unfold exists_, stat_test, resolve. simpl.
  destruct (path_has_nul p); [done |]. destruct (bool_decide _); [done |].
  pose proof (walk_delete (tree f) loc x (p_parts p) (start f (p_anchor p)) Hloc) as H.
  change (start (set_tree f (delete loc (tree f))) (p_anchor p))
    with (start f (p_anchor p)).
  destruct (walk (tree f) (start f (p_anchor p)) (p_parts p)) as [l n| |]; [|done..].
  destruct (decide (l = loc)); [|done]. by destruct H as [-> | ->].
Qed.

Lemma path_has_nul_child p n :
  path_has_nul (make_child_relpath p n) = path_has_nul p || has_char nul n.
Proof.
  unfold path_has_nul. simpl. rewrite existsb_app. simpl. by rewrite orb_false_r.
Qed.

(** An entry of a directory, reached through the path of the directory. *)
Lemma resolve_child f p loc n :
  resolve f p = Found loc Dir → n ≠ ".." → has_char nul n = false →
  (len n ≤ NAME_MAX)%Z → (len (str (make_child_relpath p n)) < PATH_MAX)%Z →
  resolve f (make_child_relpath p n)
  = match tree f !! (loc ++ [n]) with
    | Some nd => Found (loc ++ [n]) nd
    | None => Missing (loc ++ [n])
    end.
Proof.
  intros Hp Hn Hnul Hlen Hpath.
  pose proof (resolve_found _ _ _ _ Hp) as [Hloc [Hnp _]].
  pose proof (resolve_is_walk f p) as Hw. rewrite Hp in Hw. destruct Hw as [_ Hw].
  symmetry in Hw.
  rewrite resolve_fits by (split; [by rewrite path_has_nul_child, Hnp, Hnul | done]).
  simpl. rewrite (walk_app _ _ _ _ _ _ Hw). by apply walk_child.
Qed.

(** A path with one more name at its end that resolves: the path before
    the name is a directory. *)
Lemma resolve_child_inv f p n l :
  n ≠ ".." →
  (∃ nd, resolve f (make_child_relpath p n) = Found l nd) ∨
  resolve f (make_child_relpath p n) = Missing l →
  ∃ loc, walk (tree f) (start f (p_anchor p)) (p_parts p) = Found loc Dir ∧
         l = loc ++ [n] ∧ (len n ≤ NAME_MAX)%Z ∧
         path_has_nul p = false ∧ has_char nul n = false.
Proof.
  intros Hn H.
  pose proof (resolve_is_walk f (make_child_relpath p n)) as Hw.
  assert (fits (make_child_relpath p n) ∧
          ((∃ nd, walk (tree f) (start f (p_anchor p)) (p_parts p ++ [n]) = Found l nd) ∨
           walk (tree f) (start f (p_anchor p)) (p_parts p ++ [n]) = Missing l))
    as [[Hnul _] H'].
  { destruct H as [[nd H] | H]; rewrite H in Hw; destruct Hw as [? Hw];
      (split; [done |]); [left; exists nd | right]; exact (eq_sym Hw). }
  rewrite path_has_nul_child in Hnul. apply orb_false_elim in Hnul as [? ?].
  apply walk_snoc in H' as (loc & ? & ? & ?); [|done]. by exists loc.
Qed.

(** *** exists, is_dir, is_file *)

Lemma is_dir_true f p :
  is_dir f p = inr true ↔ ∃ loc, resolve f p = Found loc Dir.
Proof.
  unfold is_dir, stat_test. destruct (resolve f p) as [loc [] | |e]; split;
    try (by intros [? ?]); try done; eauto.
  by destruct (ignored e).
Qed.

Lemma is_file_true f p :
  is_file f p = inr true ↔ ∃ loc content, resolve f p = Found loc (File content).
Proof.
  unfold is_file, stat_test. destruct (resolve f p) as [loc [] | |e]; split;
    try (by intros (? & ? & ?)); try done; eauto.
  by destruct (ignored e).
Qed.

Lemma exists_true f p :
  exists_ f p = inr true ↔ ∃ loc n, resolve f p = Found loc n.
Proof.
  unfold exists_, stat_test. destruct (resolve f p) as [loc n | |e]; split;
    try (by intros (? & ? & ?)); try done; eauto.
  by destruct (ignored e).
Qed.

(** The three tests fail together: they are one [stat]. *)
Lemma stat_test_raises test test' f p e :
  stat_test test f p = inl e → stat_test test' f p = inl e.
Proof.
  unfold stat_test. destruct (resolve f p) as [| |e']; try done.
Qed.

(** A test raises only for a path the system refuses as too long. *)
Lemma stat_test_inl test f p e :
  stat_test test f p = inl e →
  e = OSError 36 (str p) ∧ resolve f p = Failed ENAMETOOLONG.
Proof.
  unfold stat_test. destruct (resolve f p) as [| |[]]; try done.
  simpl. by intros [= <-].
Qed.

Lemma is_dir_exists f p b :
  is_dir f p = inr b → ∃ b', exists_ f p = inr b' ∧ (b = true → b' = true).
Proof.
  unfold is_dir, exists_, stat_test. destruct (resolve f p) as [| |e']; eauto.
Qed.

(** *** Well-formed trees are kept by the file operations *)

Lemma wf_insert_new t l c v :
  wf t → t !! l = Some Dir → t !! (l ++ [c]) = None →
  plain c → (len c ≤ NAME_MAX)%Z →
  wf (<[l ++ [c] := v]> t).
Proof.
  intros [Hroot Hwf] Hl Hnew Hc Hlen. split.
  - rewrite lookup_insert_ne; [done |]. by destruct l.
  - intros loc n. rewrite lookup_insert.
    destruct (decide (l ++ [c] = loc ++ [n])) as [Heq|Hne].
    + apply app_inj_tail in Heq as [<- <-]. intros _.
      rewrite lookup_insert_ne; [done |]. intros Hbad.
      apply (f_equal length) in Hbad. rewrite length_app in Hbad. simpl in Hbad. lia.
    + intros [Hd Hp]%Hwf. split; [|done].
      rewrite lookup_insert_ne; [done | congruence].
Qed.

Lemma wf_insert_file t loc x y :
  wf t → t !! loc = Some (File x) → wf (<[loc := File y]> t).
Proof.
  intros [Hroot Hwf] Hloc. split.
  - rewrite lookup_insert_ne; [done | congruence].
  - intros l n Hsome.
    assert (is_Some (t !! (l ++ [n]))) as [Hd Hp]%Hwf.
    { rewrite lookup_insert in Hsome. case_decide; [subst; eauto | done]. }
    split; [|done]. rewrite lookup_insert_ne; [done | congruence].
Qed.

Lemma wf_delete_file t loc x :
  wf t → t !! loc = Some (File x) → wf (delete loc t).
Proof.
  intros [Hroot Hwf] Hloc. split.
  - rewrite lookup_delete_ne; [done | congruence].
  - intros l n Hsome.
    assert (is_Some (t !! (l ++ [n]))) as [Hd Hp]%Hwf.
    { rewrite lookup_delete in Hsome. case_decide; [by destruct Hsome | done]. }
    split; [|done]. rewrite lookup_delete_ne; [done | congruence].
Qed.

(** The name a resolution creates is plain when the path is lexical. *)
Lemma resolve_missing_plain f p loc :
  lexical p → resolve f p = Missing loc →
  ∃ l c, loc = l ++ [c] ∧ plain c ∧ (len c ≤ NAME_MAX)%Z ∧
         tree f !! l = Some Dir ∧ tree f !! loc = None.
Proof.
  intros Hlex ([Hnul _] & l & c & -> & Hin & Hdd & Hlen & Hl & Hnone)%resolve_missing.
  exists l, c. split_and!; try done.
  unfold lexical in Hlex. rewrite Forall_forall in Hlex.
  destruct (Hlex c Hin) as (? & ? & ?).
  unfold path_has_nul in Hnul.
  assert (has_char nul c = false).
  { destruct (has_char nul c) eqn:E; [|done].
    assert (existsb (has_char nul) (p_parts p) = true) as Hex; [|congruence].
    apply existsb_exists. exists c. split; [by apply list_elem_of_In | done]. }
  by repeat split.
Qed.

(** *** mkdir *)

Lemma os_mkdir_inr p f f' :
  os_mkdir p f = inr f' →
  ∃ loc, resolve f p = Missing loc ∧ f' = set_tree f (<[loc := Dir]> (tree f)).
Proof.
  unfold os_mkdir. destruct (resolve f p); [done | | done].
  intros [= <-]. eauto.
Qed.

(** After a successful [os.mkdir] the path is a directory. *)
Lemma os_mkdir_is_dir p f f' : os_mkdir p f = inr f' → is_dir f' p = inr true.
Proof.
  intros (loc & Hres & ->)%os_mkdir_inr.
  pose proof (resolve_missing_None _ _ _ Hres) as Hnone.
  assert (tree f !! loc ≠ Some Dir) as Hloc by congruence.
  pose proof (resolve_insert f p loc Dir Hloc) as H. rewrite Hres in H.
  apply is_dir_true. exists loc. by rewrite H, decide_True.
Qed.

Lemma exist_ok_inv e self f res f' :
  exist_ok e self f = (res, f') →
  f' = f ∧ (res = None → is_dir f self = inr true).
Proof.
  unfold exist_ok. destruct e; try (by intros [= <- <-]);
    destruct (is_dir f self) as [|[]]; by intros [= <- <-].
Qed.

(** However [mkdir(parents=True, exist_ok=True)] ends, the disk it leaves
    comes from the one it found by successful [os.mkdir] calls on the path
    and on its parents. *)
Lemma mkdir_parents_steps (P : fs → fs → Prop) a r :
  (∀ f, P f f) →
  (∀ f1 f2 f3, P f1 f2 → P f2 f3 → P f1 f3) →
  (∀ r' f f', r' `suffix_of` r → os_mkdir (mkPath a (reverse r')) f = inr f' → P f f') →
  ∀ f res f', mkdir_parents a r f = (res, f') → P f f'.
Proof.
  intros Hrefl Htrans. induction r as [|c r IH]; intros Hstep f res f'; simpl.
  - destruct (os_mkdir _ f) as [e|f1] eqn:E1.
    + destruct e; try (by intros [= <- <-]);
        by intros [-> _]%exist_ok_inv.
    + intros [= <- <-]. by apply (Hstep []).
  - assert (∀ r' f f', r' `suffix_of` r →
              os_mkdir (mkPath a (reverse r')) f = inr f' → P f f') as Hstep'.
    { intros r' g g' Hsuf. apply Hstep. by apply suffix_cons_r. }
    destruct (os_mkdir _ f) as [e|f1] eqn:E1.
    + destruct e; try (by intros [-> _]%exist_ok_inv).
      destruct (mkdir_parents a r f) as [[e2|] f2] eqn:E2.
      * intros [= <- <-]. by eapply IH.
      * pose proof (IH Hstep' _ _ _ E2) as H2.
        destruct (os_mkdir _ f2) as [e3|f3] eqn:E3.
        -- destruct e3; try (by intros [= <- <-]);
             by intros [-> _]%exist_ok_inv.
        -- intros [= <- <-]. eapply Htrans; [done |]. by apply (Hstep (c :: r)).
    + intros [= <- <-]. by apply (Hstep (c :: r)).
Qed.

(** [mkdir(parents=True, exist_ok=True)] returns only with the path a
    directory. *)
Lemma mkdir_is_dir p f f' : mkdir p f = (None, f') → is_dir f' p = inr true.
Proof.
  unfold mkdir. destruct p as [a parts]. simpl.
  rewrite <- (reverse_involutive parts) at 2.
  generalize (reverse parts) as r. clear parts. intros r.
  destruct r as [|c r]; simpl.
  - destruct (os_mkdir _ f) as [e|f1] eqn:E1.
    + destruct e; try done; intros H; apply exist_ok_inv in H as [-> H]; by apply H.
    + intros [= <-]. by apply os_mkdir_is_dir in E1.
  - destruct (os_mkdir _ f) as [e|f1] eqn:E1.
    + destruct e; try (intros H; apply exist_ok_inv in H as [-> H]; by apply H).
      destruct (mkdir_parents a r f) as [[e2|] f2]; [done |].
      destruct (os_mkdir _ f2) as [e3|f3] eqn:E3.
      * destruct e3; try done; intros H; apply exist_ok_inv in H as [-> H]; by apply H.
      * intros [= <-]. by apply os_mkdir_is_dir in E3.
    + intros [= <-]. by apply os_mkdir_is_dir in E1.
Qed.

(** On an existing directory it changes nothing. *)
Lemma mkdir_existing p f : is_dir f p = inr true → mkdir p f = (None, f).
Proof.
  intros Hd. unfold mkdir.
  assert (os_mkdir p f = inl (FileExistsError (str p))) as Hmk.
  { apply is_dir_true in Hd as [loc Hd]. unfold os_mkdir. by rewrite Hd. }
  revert Hmk. generalize (str p) as sp. intros sp Hmk.
  destruct p as [a parts]. simpl.
  rewrite <- (reverse_involutive parts) in Hmk, Hd.
  destruct (reverse parts); simpl; rewrite Hmk; unfold exist_ok; by rewrite Hd.
Qed.

(** It only adds directories, however it ends. *)
Lemma mkdir_adds p f res f' :
  mkdir p f = (res, f') →
  cwd f' = cwd f ∧
  ∀ loc, tree f' !! loc = tree f !! loc ∨
         (tree f !! loc = None ∧ tree f' !! loc = Some Dir).
Proof.
  apply (mkdir_parents_steps
           (λ f f', cwd f' = cwd f ∧
                    ∀ loc, tree f' !! loc = tree f !! loc ∨
                           (tree f !! loc = None ∧ tree f' !! loc = Some Dir))).
  - intros g. split; [done | by left].
  - intros f1 f2 f3 [Hc1 H1] [Hc2 H2]. split; [congruence |]. intros loc.
    destruct (H1 loc) as [E1 | [E1 E1']], (H2 loc) as [E2 | [E2 E2']];
      [left | right | right | ]; try (split; congruence); congruence.
  - intros r' g g' _ (l & Hres & ->)%os_mkdir_inr. split; [done |].
    apply resolve_missing_None in Hres. intros loc. simpl.
    rewrite lookup_insert. case_decide; [subst; by right | by left].
Qed.

Lemma os_mkdir_wf p f f' :
  lexical p → wf (tree f) → os_mkdir p f = inr f' →
  wf (tree f') ∧ cwd f' = cwd f.
Proof.
  intros Hlex Hwf (loc & Hres & ->)%os_mkdir_inr. split; [|done].
  apply resolve_missing_plain in Hres as (l & c & -> & ? & ? & ? & ?); [|done].
  by apply wf_insert_new.
Qed.

Lemma mkdir_wf p f res f' :
  lexical p → wf (tree f) → mkdir p f = (res, f') → wf (tree f').
Proof.
  intros Hlex Hwf Hmk. revert Hwf. unfold mkdir in Hmk.
  refine (mkdir_parents_steps (λ f f', wf (tree f) → wf (tree f'))
            (p_anchor p) (reverse (p_parts p)) _ _ _ f res f' Hmk);
    [done | by auto |].
  intros r' g g' Hsuf Hstep Hg. eapply os_mkdir_wf; [|done|done].
  unfold lexical in *. simpl.
  apply Forall_reverse. apply Forall_reverse in Hlex.
  rewrite Forall_forall in Hlex |- *. intros x Hx. apply Hlex.
  destruct Hsuf as [k ->]. apply elem_of_app. by right.
Qed.

(** *** write_bytes, read_bytes, unlink *)

Lemma write_bytes_inr p data f f' :
  write_bytes p data f = inr f' →
  ∃ loc, (resolve f p = Missing loc ∨ ∃ x, resolve f p = Found loc (File x)) ∧
         f' = set_tree f (<[loc := File data]> (tree f)).
Proof.
  unfold write_bytes. destruct (resolve f p) as [loc []| loc |]; try done.
  - intros [= <-]. eauto.
  - intros [= <-]. eauto.
Qed.

Lemma write_bytes_target p data f f' :
  write_bytes p data f = inr f' →
  ∃ loc, tree f !! loc ≠ Some Dir ∧
         (resolve f p = Missing loc ∨ ∃ x, resolve f p = Found loc (File x)) ∧
         f' = set_tree f (<[loc := File data]> (tree f)).
Proof.
  intros (loc & Hres & ->)%write_bytes_inr. exists loc. split; [|done].
  destruct Hres as [Hres | [x Hres]].
  - apply resolve_missing_None in Hres. congruence.
  - apply resolve_found in Hres as [Hx _]. congruence.
Qed.

(** After a successful write the path is a regular file with the data. *)
Lemma write_bytes_resolve p data f f' :
  write_bytes p data f = inr f' → ∃ loc, resolve f' p = Found loc (File data).
Proof.
  intros (loc & Hloc & Hres & ->)%write_bytes_target. exists loc.
  pose proof (resolve_insert f p loc (File data) Hloc) as H.
  destruct Hres as [Hres | [x Hres]]; rewrite Hres in H; rewrite H;
    by rewrite decide_True.
Qed.


Lemma write_bytes_wf p data f f' :
  lexical p → wf (tree f) → write_bytes p data f = inr f' →
  wf (tree f') ∧ cwd f' = cwd f.
Proof.
  intros Hlex Hwf (loc & Hres & ->)%write_bytes_inr. split; [|done]. simpl.
  destruct Hres as [Hres | [x Hres]].
  - apply resolve_missing_plain in Hres as (l & c & -> & ? & ? & ? & ?); [|done].
    by apply wf_insert_new.
  - apply resolve_found in Hres as [Hx _]. by eapply wf_insert_file.
Qed.

Lemma unlink_inr p f f' :
  unlink p f = inr f' →
  ∃ loc x, resolve f p = Found loc (File x) ∧ f' = set_tree f (delete loc (tree f)).
Proof.
  unfold unlink. destruct (resolve f p) as [loc []| loc |]; try done.
  intros [= <-]. eauto.
Qed.

(** After a successful unlink the path does not exist. *)
Lemma unlink_exists p f f' : unlink p f = inr f' → exists_ f' p = inr false.
Proof.
  intros (loc & x & Hres & ->)%unlink_inr.
  pose proof (resolve_found _ _ _ _ Hres) as [Hloc _].
  pose proof (resolve_delete f p loc x Hloc) as H.
  rewrite Hres, decide_True in H by done. done.
Qed.

Lemma unlink_wf p f f' :
  wf (tree f) → unlink p f = inr f' → wf (tree f') ∧ cwd f' = cwd f.
Proof.
  intros Hwf (loc & x & Hres & ->)%unlink_inr. split; [|done]. simpl.
  apply resolve_found in Hres as [Hx _]. by eapply wf_delete_file.
Qed.

(** *** Directory entries *)

Lemma entry_name_spec loc k n : entry_name loc k = Some n ↔ k = loc ++ [n].
Proof.
  unfold entry_name. split.
  - destruct (reverse k) as [|m r] eqn:E; [done |].
    case_decide as Hr; [|done]. intros [= <-]. subst loc.
    rewrite <- (reverse_involutive k), E. by rewrite reverse_cons.
  - intros ->. rewrite reverse_app. simpl.
    by rewrite decide_True by apply reverse_involutive.
Qed.

Lemma elem_of_entries t loc n :
  n ∈ entries t loc ↔ is_Some (t !! (loc ++ [n])).
Proof.
  unfold entries. rewrite list_elem_of_omap. split.
  - intros (k & Hk & ->%entry_name_spec).
    by apply elem_of_elements, elem_of_dom in Hk.
  - intros Hsome. exists (loc ++ [n]). split.
    + by apply elem_of_elements, elem_of_dom.
    + by apply entry_name_spec.
Qed.

Lemma NoDup_entries t loc : NoDup (entries t loc).
Proof.
  unfold entries. generalize (NoDup_elements (dom t)).
  induction (elements (dom t)) as [|k ks IH]; intros Hnd; simpl; [constructor |].
  inversion_clear Hnd as [|? ? Hk Hks].
  destruct (entry_name loc k) as [n|] eqn:E; [|by apply IH].
  constructor; [|by apply IH].
  rewrite list_elem_of_omap. intros (k' & Hk' & E').
  apply entry_name_spec in E, E'. congruence.
Qed.

(** *** The comprehension over the children of a directory *)

Lemma keep_files_inr f p ns kept :
  keep_files f (make_child_relpath p <$> ns) = inr kept →
  name <$> kept = filter (λ n, is_file f (make_child_relpath p n) = inr true) ns.
Proof.
  revert kept. induction ns as [|n ns IH]; intros kept; csimpl.
  - by intros [= <-].
  - destruct (is_file f (make_child_relpath p n)) as [e|b] eqn:E; [done |].
    destruct (keep_files f (make_child_relpath p <$> ns)) as [e|kept'] eqn:E';
      simpl; [done |].
    intros [= <-]. specialize (IH _ eq_refl).
    rewrite filter_cons. destruct b.
    + rewrite decide_True by done. csimpl. by rewrite name_child, IH.
    + rewrite decide_False by (by rewrite E). done.
Qed.

Lemma keep_files_total f children :
  Forall (λ c, ∃ b, is_file f c = inr b) children →
  ∃ kept, keep_files f children = inr kept.
Proof.
  induction 1 as [|c cs [b Hb] _ [kept IH]]; simpl; [eauto |].
  rewrite Hb, IH. eexists. reflexivity.
Qed.

Lemma keep_files_inl f children e :
  keep_files f children = inl e → ∃ c, c ∈ children ∧ is_file f c = inl e.
Proof.
  induction children as [|c cs IH]; simpl; [done |].
  destruct (is_file f c) as [e'|b] eqn:E.
  - intros [= <-]. exists c. split; [left | done].
  - destruct (keep_files f cs) as [e'|kept]; [|done].
    intros [= <-]. destruct (IH eq_refl) as (c' & ? & ?).
    exists c'. split; [by right | done].
Qed.

Lemma keep_files_raises f children c e :
  c ∈ children → is_file f c = inl e → ∃ e', keep_files f children = inl e'.
Proof.
  intros Hc He. induction children as [|c' cs IH]; [by apply elem_of_nil in Hc |].
  simpl. apply elem_of_cons in Hc as [<- | Hc].
  - rewrite He. eauto.
  - destruct (is_file f c'); [eauto |].
    destruct (IH Hc) as [e' ->]. eauto.
Qed.

(** *** Paths one plain name below a directory *)

(** A child of a resolved directory that has room for its name. *)
Lemma is_file_child f p loc n :
  wf (tree f) → resolve f p = Found loc Dir → n ∈ entries (tree f) loc →
  (len (str (make_child_relpath p n)) < PATH_MAX)%Z →
  is_file f (make_child_relpath p n) = inr (regular (tree f) (loc ++ [n])).
Proof.
  intros [_ Hwf] Hp Hn%elem_of_entries Hlen.
  destruct (Hwf loc n Hn) as (_ & (_ & _ & Hdd & _ & Hnul) & Hmax).
  unfold is_file, stat_test, regular.
  rewrite (resolve_child f p loc n Hp Hdd Hnul Hmax Hlen).
  destruct Hn as [nd Hn]. rewrite Hn. by destruct nd.
Qed.

(** A child whose path is too long for the system. *)
Lemma is_file_child_long f p n :
  path_has_nul (make_child_relpath p n) = false →
  (PATH_MAX ≤ len (str (make_child_relpath p n)))%Z →
  is_file f (make_child_relpath p n) = inl (OSError 36 (str (make_child_relpath p n))).
Proof.
  intros Hnul Hlen. unfold is_file, stat_test, resolve. rewrite Hnul.
  by rewrite bool_decide_eq_true_2 by done.
Qed.

(** [mkdir] of a plain name below an existing directory. *)
Lemma mkdir_child f p rloc a :
  resolve f p = Found rloc Dir → plain a →
  (len a ≤ NAME_MAX)%Z → (len (str (p // a)) < PATH_MAX)%Z →
  mkdir (p // a) f
  = match tree f !! (rloc ++ [a]) with
    | None => (None, set_tree f (<[rloc ++ [a] := Dir]> (tree f)))
    | Some Dir => (None, f)
    | Some (File _) => (Some (FileExistsError (str (p // a))), f)
    end.
Proof.
  intros Hp Ha Hmax. rewrite joinpath_plain by done. intros Hlen.
  pose proof Ha as (_ & _ & Hdd & _ & Hnul).
  pose proof (resolve_child f p rloc a Hp Hdd Hnul Hmax Hlen) as Hres.
  unfold mkdir. simpl. rewrite reverse_app. simpl.
  assert (mkPath (p_anchor p) (reverse (a :: reverse (p_parts p)))
          = make_child_relpath p a) as ->.
  { unfold make_child_relpath. by rewrite reverse_cons, reverse_involutive. }
  unfold os_mkdir, exist_ok, is_dir, stat_test. rewrite Hres.
  by destruct (tree f !! (rloc ++ [a])) as [[]|].
Qed.

(** *** Directories created below a directory *)

Lemma created_under_refl root pa t : created_under root pa t t.
Proof. intros loc. by left. Qed.

Lemma created_under_trans root pa t1 t2 t3 :
  created_under root pa t1 t2 → created_under root pa t2 t3 →
  created_under root pa t1 t3.
Proof.
  intros H1 H2 loc.
  destruct (H1 loc) as [E1 | (E1 & E1' & Hpre)], (H2 loc) as [E2 | (E2 & E2' & Hpre')].
  - left. congruence.
  - right. split_and!; [congruence | done | done].
  - right. split_and!; [done | congruence | done].
  - congruence.
Qed.

Lemma created_under_mono root pa pa' t t' :
  pa `prefix_of` pa' → created_under root pa t t' → created_under root pa' t t'.
Proof.
  intros Hpa H loc. destruct (H loc) as [E | (E & E' & pre & ? & ? & ?)]; [by left |].
  right. split_and!; [done | done |]. exists pre. split_and!; [done | | done].
  by etrans.
Qed.

Lemma mkdir_parents_unfold a r f :
  mkdir_parents a r f
  = match os_mkdir (mkPath a (reverse r)) f with
    | inr f' => (None, f')
    | inl (FileNotFoundError arg) =>
        match r with
        | [] => (Some (FileNotFoundError arg), f)
        | _ :: rparent =>
            match mkdir_parents a rparent f with
            | (Some e, f1) => (Some e, f1)
            | (None, f1) =>
                match os_mkdir (mkPath a (reverse r)) f1 with
                | inr f2 => (None, f2)
                | inl (FileNotFoundError arg') => (Some (FileNotFoundError arg'), f1)
                | inl e => exist_ok e (mkPath a (reverse r)) f1
                end
            end
        end
    | inl e => exist_ok e (mkPath a (reverse r)) f
    end.
Proof. by destruct r. Qed.

(** Names without [..] joined to a resolved directory lead below it. *)
Lemma resolve_under f root rloc pa :
  resolve f root = Found rloc Dir → ".." ∉ pa →
  match resolve f (mkPath (p_anchor root) (p_parts root ++ pa)) with
  | Found loc _ | Missing loc => loc = rloc ++ pa
  | Failed _ => True
  end.
Proof.
  intros Hroot Hpa.
  pose proof (resolve_is_walk f root) as Hw. rewrite Hroot in Hw.
  destruct Hw as [_ Hw]. symmetry in Hw.
  pose proof (resolve_is_walk f (mkPath (p_anchor root) (p_parts root ++ pa))) as Hw'.
  pose proof (walk_inside (tree f) pa rloc Hpa) as Hin.
  destruct (resolve f (mkPath (p_anchor root) (p_parts root ++ pa))) as [l n|l|];
    [| |done]; destruct Hw' as [_ Hw']; simpl in Hw';
    rewrite (walk_app _ _ pa _ _ _ Hw) in Hw'; by rewrite <- Hw' in Hin.
Qed.

(** One [os.mkdir] below a directory creates the directory it names. *)
Lemma os_mkdir_under f root rloc pa f' :
  resolve f root = Found rloc Dir → ".." ∉ pa →
  os_mkdir (mkPath (p_anchor root) (p_parts root ++ pa)) f = inr f' →
  resolve f' root = Found rloc Dir ∧ cwd f' = cwd f ∧
  created_under rloc pa (tree f) (tree f').
Proof.
  intros Hroot Hpa (loc & Hres & ->)%os_mkdir_inr.
  pose proof (resolve_missing_None _ _ _ Hres) as Hnone.
  assert (tree f !! loc ≠ Some Dir) as Hloc by congruence.
  split_and!; [| done |].
  - pose proof (resolve_insert f root loc Dir Hloc) as H. rewrite Hroot in H.
    rewrite H. by case_decide.
  - pose proof (resolve_is_walk f root) as Hw. rewrite Hroot in Hw.
    destruct Hw as [_ Hw]. symmetry in Hw.
    pose proof (resolve_is_walk f (mkPath (p_anchor root) (p_parts root ++ pa))) as Hw'.
    rewrite Hres in Hw'. destruct Hw' as [_ Hw']. simpl in Hw'.
    rewrite (walk_app _ _ pa _ _ _ Hw) in Hw'.
    pose proof (walk_inside (tree f) pa rloc Hpa) as Hin. rewrite <- Hw' in Hin.
    subst loc. intros l. simpl. rewrite lookup_insert. case_decide as Hl; [|by left].
    subst l. right. split_and!; [done | done |].
    exists pa. split_and!; [| done | done].
    intros ->. rewrite app_nil_r in Hnone.
    apply resolve_found in Hroot as [Hroot _]. congruence.
Qed.

(** [mkdir(parents=True, exist_ok=True)] of a path below a directory creates
    directories only below it, however it ends. *)
Lemma mkdir_parents_under root rloc rpa : ∀ f res f',
  resolve f root = Found rloc Dir → ".." ∉ rpa →
  mkdir_parents (p_anchor root) (rpa ++ reverse (p_parts root)) f = (res, f') →
  resolve f' root = Found rloc Dir ∧ cwd f' = cwd f ∧
  created_under rloc (reverse rpa) (tree f) (tree f').
Proof.
  induction rpa as [|c rpa IH]; intros f res f' Hroot Hpa; rewrite mkdir_parents_unfold.
  - simpl app. rewrite reverse_involutive.
    assert (mkPath (p_anchor root) (p_parts root) = root) as -> by by destruct root.
    unfold os_mkdir. rewrite Hroot.
    intros [-> _]%exist_ok_inv. split_and!; [done | done | apply created_under_refl].
  - assert (".." ∉ rpa) as Hpa' by (intros ?; apply Hpa; by right).
    assert (".." ∉ reverse (c :: rpa)) as Hrev by by rewrite elem_of_reverse.
    assert (reverse ((c :: rpa) ++ reverse (p_parts root))
            = p_parts root ++ reverse (c :: rpa)) as ->.
    { by rewrite reverse_app, reverse_involutive. }
    assert (reverse rpa `prefix_of` reverse (c :: rpa)) as Hpre.
    { rewrite reverse_cons. by apply prefix_app_r. }
    destruct (os_mkdir _ f) as [e|f1] eqn:E1.
    + destruct e;
        try (intros [-> _]%exist_ok_inv;
             split_and!; [done | done | apply created_under_refl]).
      cbn [app].
      destruct (mkdir_parents (p_anchor root) (rpa ++ reverse (p_parts root)) f)
        as [[e2|] f2] eqn:E2;
        destruct (IH _ _ _ Hroot Hpa' E2) as (Hroot2 & Hcwd2 & Hc2);
        apply (created_under_mono _ _ _ _ _ Hpre) in Hc2.
      * by intros [= <- <-].
      * destruct (os_mkdir _ f2) as [e3|f3] eqn:E3.
        -- destruct e3; try (by intros [= <- <-]);
             by intros [-> _]%exist_ok_inv.
        -- intros [= <- <-].
           destruct (os_mkdir_under _ _ _ _ _ Hroot2 Hrev E3) as (? & ? & ?).
           split_and!; [done | congruence | by eapply created_under_trans].
    + intros [= <- <-]. by eapply os_mkdir_under.
Qed.

Lemma mkdir_under f root rloc pa res f' :
  resolve f root = Found rloc Dir → ".." ∉ pa →
  mkdir (mkPath (p_anchor root) (p_parts root ++ pa)) f = (res, f') →
  resolve f' root = Found rloc Dir ∧ cwd f' = cwd f ∧
  created_under rloc pa (tree f) (tree f').
Proof.
  intros Hroot Hpa. unfold mkdir. simpl. rewrite reverse_app.
  intros H. rewrite <- (reverse_involutive pa).
  eapply mkdir_parents_under; [done | by rewrite elem_of_reverse | done].
Qed.

Lemma wfb_sound t : wfb t = true → wf t.
Proof.
  unfold wfb. intros [Hroot Hall]%andb_true_iff.
  apply bool_decide_eq_true in Hroot. split; [done |].
  intros loc n Hsome. rewrite forallb_forall in Hall.
  assert (In (loc ++ [n]) (elements (dom t))) as Hin.
  { by apply list_elem_of_In, elem_of_elements, elem_of_dom. }
  apply Hall in Hin. rewrite reverse_app in Hin. simpl in Hin.
  rewrite reverse_involutive in Hin.
  apply andb_true_iff in Hin as [[H1 H2]%andb_true_iff H3].
  apply bool_decide_eq_true in H1, H2, H3. done.
Qed.

End DiskFacts.
(** ** LocalStorageService *)

Module StorageFacts.

Import PurePath Disk LocalStorage PathFacts DiskFacts.

Ltac run_monad :=
  unfold update, fetch, modify, read, atomic, logger, emit, try_except,
    to_thread, raise, mbind, M_bind, mret, M_ret; simpl.

Section Runs.

Variable self : LocalStorageService.

(** What [save_file] does, call by call. *)
Lemma save_file_run flow_id file_name data w :
  save_file self flow_id file_name data w =
  let folder_path := data_dir self // flow_id in
  let file_path := folder_path // file_name in
  let tr1 := trace w ++ [Call Mkdir folder_path] in
  match mkdir folder_path (files w) with
  | (Some e, f1) => (inl e, mkWorld f1 tr1)
  | (None, f1) =>
      let tr2 := tr1 ++ [Call WriteBytes file_path] in
      match write_bytes file_path data f1 with
      | inr f2 => (inr tt, mkWorld f2 (tr2 ++ [Log INFO (saved_msg flow_id file_name)]))
      | inl e => (inl e, mkWorld f1 (tr2 ++ [Log ERROR (save_error_msg flow_id file_name)]))
      end
  end.
Proof.
  unfold save_file. run_monad.
  destruct (mkdir _ (files w)) as [[e|] f1]; [done |]. simpl.
  by destruct (write_bytes _ data f1) as [e|f2].
Qed.

Lemma get_file_run flow_id file_name w :
  get_file self flow_id file_name w =
  let file_path := data_dir self // flow_id // file_name in
  match exists_ (files w) file_path with
  | inl e => (inl e, w)
  | inr true =>
      let tr1 := trace w ++ [Call ReadBytes file_path] in
      match read_bytes file_path (files w) with
      | inr content =>
          (inr content,
           mkWorld (files w)
             (tr1 ++ [Log DEBUG (retrieved_msg flow_id file_name)]))
      | inl e => (inl e, mkWorld (files w) tr1)
      end
  | inr false =>
      (inl (FileNotFoundError (not_found_msg flow_id file_name)),
       mkWorld (files w)
         (trace w ++ [Log WARNING (not_found_msg flow_id file_name +:+ ".")]))
  end.
Proof.
  unfold get_file. run_monad.
  destruct (exists_ (files w) _) as [e|[]]; simpl.
  - done.
  - by destruct (read_bytes _ (files w)).
  - unfold not_found_msg. by rewrite !append_assoc.
Qed.

Lemma list_files_run flow_id w :
  list_files self flow_id w =
  let folder_path := data_dir self // flow_id in
  let absent :=
    (inl (FileNotFoundError (no_flow_msg flow_id)),
     mkWorld (files w) (trace w ++ [Log WARNING (no_flow_msg flow_id)])) in
  match exists_ (files w) folder_path with
  | inl e => (inl e, w)
  | inr false => absent
  | inr true =>
      match is_dir (files w) folder_path with
      | inl e => (inl e, w)
      | inr false => absent
      | inr true =>
          match iterdir folder_path (files w) with
          | inl e => (inl e, w)
          | inr children =>
              match keep_files (files w) children with
              | inl e => (inl e, w)
              | inr kept =>
                  let names := name <$> kept in
                  (inr names,
                   mkWorld (files w)
                     (trace w ++ [Log INFO (listed_msg flow_id (length names))]))
              end
          end
      end
  end.
Proof.
  unfold list_files. run_monad. destruct w as [f tr]. simpl.
  destruct (exists_ f _) as [e|[]]; simpl; [done | | done].
  destruct (is_dir f _) as [e|[]]; simpl; [done | | done].
  destruct (iterdir _ f) as [e|children]; simpl; [done |].
  by destruct (keep_files f children).
Qed.

Lemma delete_file_run flow_id file_name w :
  delete_file self flow_id file_name w =
  let file_path := data_dir self // flow_id // file_name in
  match exists_ (files w) file_path with
  | inl e => (inl e, w)
  | inr true =>
      let tr1 := trace w ++ [Call Unlink file_path] in
      match unlink file_path (files w) with
      | inr f' =>
          (inr tt,
           mkWorld f' (tr1 ++ [Log INFO (deleted_msg flow_id file_name)]))
      | inl e => (inl e, mkWorld (files w) tr1)
      end
  | inr false =>
      (inr tt,
       mkWorld (files w)
         (trace w ++ [Log WARNING (delete_missing_msg flow_id file_name)]))
  end.
Proof.
  unfold delete_file. run_monad.
  destruct (exists_ (files w) _) as [e|[]]; simpl; [done | | done].
  by destruct (unlink _ (files w)).
Qed.

Lemma read_resolved p f loc data :
  resolve f p = Found loc (File data) →
  exists_ f p = inr true ∧ read_bytes p f = inr data.
Proof. intros H. unfold exists_, stat_test, read_bytes. by rewrite H. Qed.

(** Reading back what a successful save wrote. *)
Lemma get_after_save flow_id file_name data w w1 :
  save_file self flow_id file_name data w = (inr tt, w1) →
  get_file self flow_id file_name w1
  = (inr data,
     mkWorld (files w1)
       (trace w1 ++ [Call ReadBytes (data_dir self // flow_id // file_name);
                     Log DEBUG (retrieved_msg flow_id file_name)])).
Proof.
  rewrite save_file_run. simpl.
  destruct (mkdir _ (files w)) as [[e|] f1] eqn:Emk; [done |].
  destruct (write_bytes _ data f1) as [e|f2] eqn:Ewr; [done |].
  intros [= <-]. apply write_bytes_resolve in Ewr as [loc Hres].
  apply read_resolved in Hres as [Hex Hrd].
  rewrite get_file_run. simpl. rewrite Hex, Hrd. by rewrite <- app_assoc.
Qed.




(** C4, as the code has it. When [exists()] finds nothing at
    [root/flow_id/file_name], [get_file] raises [FileNotFoundError] with a
    message naming the file and the flow; the only thing it leaves is the
    warning in the log: no read was issued and the disk is unchanged. When
    [exists()] itself raises, which it does for a path the system refuses as
    too long, [get_file] raises that error and logs nothing. *)
Theorem get_missing flow_id file_name w :
  (exists_ (files w) (data_dir self // flow_id // file_name) = inr false →
   get_file self flow_id file_name w
   = (inl (FileNotFoundError ("File " +:+ file_name +:+ " not found in flow " +:+ flow_id)),
      mkWorld (files w)
        (trace w ++ [Log WARNING ("File " +:+ file_name +:+ " not found in flow "
                                  +:+ flow_id +:+ ".")]))) ∧
  (∀ e, exists_ (files w) (data_dir self // flow_id // file_name) = inl e →
        e = OSError 36 (str (data_dir self // flow_id // file_name)) ∧
        get_file self flow_id file_name w = (inl e, w)).
Proof.
  split.
  - intros Hex. rewrite get_file_run. simpl. rewrite Hex.
    unfold not_found_msg. by rewrite !append_assoc.
  - intros e Hex. split; [by apply stat_test_inl in Hex as [? _] |].
    rewrite get_file_run. simpl. by rewrite Hex.
Qed.

(** C10. When the write of the contents fails, [save_file] raises that error
    and the disk is the one [mkdir] left: the flow directory exists. *)
Theorem save_failed_write_keeps_directory flow_id file_name data w f1 e :
  mkdir (data_dir self // flow_id) (files w) = (None, f1) →
  write_bytes (data_dir self // flow_id // file_name) data f1 = inl e →
  ∃ w', save_file self flow_id file_name data w = (inl e, w') ∧
        files w' = f1 ∧
        is_dir (files w') (data_dir self // flow_id) = inr true.
Proof.
  intros Hmk Hwr. rewrite save_file_run. simpl. rewrite Hmk, Hwr.
  eexists. split; [done |]. split; [done |]. simpl. by apply mkdir_is_dir in Hmk.
Qed.

(** *** The string of a joined path *)

Lemma split_slash_nonempty s : split_slash s ≠ [].
Proof.
  induction s as [|a s IH]; [done |]. simpl.
  case_decide; [done |]. by destruct (split_slash s).
Qed.

Lemma join_split s : join_parts (split_slash s) = s.
Proof.
  induction s as [|a s IH]; [done |]. simpl.
  pose proof (split_slash_nonempty s) as Hne.
  destruct (split_slash s) as [|x xs]; [done |].
  case_decide as Ha.
  - subst a. change (join_parts ("" :: x :: xs)) with ("" +:+ "/" +:+ join_parts (x :: xs)).
    by rewrite IH.
  - destruct xs as [|y xs].
    + simpl in *. by rewrite IH.
    + change (join_parts (String a x :: y :: xs))
        with (String a (x +:+ "/" +:+ join_parts (y :: xs))).
      change (join_parts (x :: y :: xs)) with (x +:+ "/" +:+ join_parts (y :: xs)) in IH.
      by rewrite IH.
Qed.

Lemma join_parts_app l1 l2 :
  l1 ≠ [] → l2 ≠ [] →
  join_parts (l1 ++ l2) = join_parts l1 +:+ "/" +:+ join_parts l2.
Proof.
  intros Hl1 Hl2. induction l1 as [|x l1 IH]; [done |].
  destruct l1 as [|x' l1].
  - destruct l2; done.
  - change (join_parts ((x :: x' :: l1) ++ l2))
      with (x +:+ "/" +:+ join_parts ((x' :: l1) ++ l2)).
    rewrite IH by done.
    change (join_parts (x :: x' :: l1)) with (x +:+ "/" +:+ join_parts (x' :: l1)).
    by rewrite !append_assoc.
Qed.

Lemma clean_parse s : clean s → parse s = mkPath Relative (split_slash s).
Proof.
  unfold clean, parse. intros Hall. f_equal.
  - unfold splitroot. destruct s as [|a s]; [done |]. simpl in *.
    case_decide; [|done]. by inversion_clear Hall.
  - induction Hall as [|x l Hx _ IH]; [done |].
    by rewrite filter_cons_True, IH.
Qed.

(** C7, as the code has it. [build_full_path] depends on the service
    through its root only; and for a root with at least one component and a
    flow id and a file name that are written as components without [.] and
    with one slash between them, its result is the root, the flow id and the
    file name put together with slashes. *)
Theorem build_full_path_concatenates flow_id file_name :
  (∀ other : LocalStorageService,
     data_dir other = data_dir self →
     build_full_path other flow_id file_name = build_full_path self flow_id file_name) ∧
  (p_parts (data_dir self) ≠ [] → clean flow_id → clean file_name →
   build_full_path self flow_id file_name
   = str (data_dir self) +:+ "/" +:+ flow_id +:+ "/" +:+ file_name).
Proof.
  split.
  - intros other Hroot. unfold build_full_path. by rewrite Hroot.
  - intros Hroot Hflow Hfile. unfold build_full_path, joinpath.
    rewrite (clean_parse _ Hflow), (clean_parse _ Hfile). simpl.
    destruct (data_dir self) as [a rp]. simpl in *.
    pose proof (split_slash_nonempty flow_id) as Hf.
    pose proof (split_slash_nonempty file_name) as Hn.
    assert (∀ l, l ≠ [] → str (mkPath a l) = anchor_str a +:+ join_parts l) as Hstr.
    { intros l Hl. unfold str. simpl. by destruct a, l. }
    rewrite !Hstr by (try done; by destruct rp).
    rewrite !join_parts_app by (try done; by destruct rp).
    rewrite !join_split. by rewrite !append_assoc.
Qed.

(** *** Listing *)

Lemma filter_ext_in {A} (P Q : A → Prop) `{!∀ x, Decision (P x)} `{!∀ x, Decision (Q x)}
    (l : list A) :
  (∀ x, x ∈ l → P x ↔ Q x) → filter P l = filter Q l.
Proof.
  induction l as [|x l IH]; intros Hiff; [done |].
  assert (∀ y, y ∈ l → P y ↔ Q y) as Hiff' by (intros y Hy; apply Hiff; by right).
  rewrite !filter_cons.
  destruct (decide (P x)) as [HP|HP], (decide (Q x)) as [HQ|HQ].
  - f_equal. by apply IH.
  - destruct HQ. apply Hiff; [by left | done].
  - destruct HP. apply Hiff; [by left | done].
  - by apply IH.
Qed.

(** What [list_files] has done when it returns. *)
Lemma list_files_inr flow_id w names w' :
  list_files self flow_id w = (inr names, w') →
  ∃ loc, resolve (files w) (data_dir self // flow_id) = Found loc Dir ∧
         names = filter (λ n, is_file (files w)
                                (make_child_relpath (data_dir self // flow_id) n) = inr true)
                        (entries (tree (files w)) loc) ∧
         w' = mkWorld (files w) (trace w ++ [Log INFO (listed_msg flow_id (length names))]).
Proof.
  rewrite list_files_run. simpl.
  destruct (exists_ _ _) as [e|[]]; [done | | done].
  destruct (is_dir _ _) as [e|[]] eqn:Hd; [done | | done].
  apply is_dir_true in Hd as [loc Hres]. unfold iterdir. rewrite Hres.
  destruct (keep_files _ _) as [e|kept] eqn:Hkeep; [done |].
  apply keep_files_inr in Hkeep. rewrite Hkeep.
  intros [= <- <-]. eauto.
Qed.

(** The result of [list_files] on an existing flow directory in which the
    path of every entry has room. *)
Lemma list_files_found flow_id w loc :
  wf (tree (files w)) →
  resolve (files w) (data_dir self // flow_id) = Found loc Dir →
  (∀ n, n ∈ entries (tree (files w)) loc →
        (len (str (make_child_relpath (data_dir self // flow_id) n)) < PATH_MAX)%Z) →
  let names := filter (λ n, regular (tree (files w)) (loc ++ [n]) = true)
                      (entries (tree (files w)) loc) in
  list_files self flow_id w
  = (inr names,
     mkWorld (files w) (trace w ++ [Log INFO (listed_msg flow_id (length names))])).
Proof.
  intros Hwf Hres Hroom names. rewrite list_files_run. simpl.
  assert (exists_ (files w) (data_dir self // flow_id) = inr true) as ->.
  { apply exists_true. eauto. }
  assert (is_dir (files w) (data_dir self // flow_id) = inr true) as ->.
  { apply is_dir_true. eauto. }
  unfold iterdir. rewrite Hres.
  destruct (keep_files_total (files w)
              (make_child_relpath (data_dir self // flow_id)
                 <$> entries (tree (files w)) loc)) as [kept Hkept].
  { apply Forall_fmap, Forall_forall. intros n Hn. simpl.
    rewrite (is_file_child _ _ _ _ Hwf Hres Hn (Hroom n Hn)). eauto. }
  rewrite Hkept. apply keep_files_inr in Hkept.
  assert (name <$> kept = names) as ->; [|done].
  rewrite Hkept. apply filter_ext_in. intros n Hn.
  rewrite (is_file_child _ _ _ _ Hwf Hres Hn (Hroom n Hn)).
  split; [by intros [= ->] | by intros ->].
Qed.

Lemma list_files_absent flow_id w :
  exists_ (files w) (data_dir self // flow_id) = inr false ∨
  is_dir (files w) (data_dir self // flow_id) = inr false →
  list_files self flow_id w
  = (inl (FileNotFoundError (no_flow_msg flow_id)),
     mkWorld (files w) (trace w ++ [Log WARNING (no_flow_msg flow_id)])).
Proof.
  rewrite list_files_run. simpl. intros [Hex | Hd].
  - by rewrite Hex.
  - destruct (is_dir_exists _ _ _ Hd) as (b & -> & _). rewrite Hd. by destruct b.
Qed.

(** C5, as the code has it. On a well-formed tree: [list_files] raises
    [FileNotFoundError] when [exists()] or [is_dir()] finds no directory at
    [root/flow_id]; when the directory is there and the path of every entry
    has room, it returns the names of the regular files among the entries,
    each once, and no name of a subdirectory; when [exists()] raises, as it
    does for a path the system refuses as too long, or when the path of an
    entry is too long, [list_files] raises. The disk is left as it is. *)
Theorem list_files_spec flow_id w :
  wf (tree (files w)) →
  (exists_ (files w) (data_dir self // flow_id) = inr false ∨
   is_dir (files w) (data_dir self // flow_id) = inr false →
   ∃ w', list_files self flow_id w
         = (inl (FileNotFoundError ("Flow " +:+ flow_id +:+ " directory does not exist.")), w') ∧
         files w' = files w) ∧
  (∀ loc, resolve (files w) (data_dir self // flow_id) = Found loc Dir →
   (∀ n, n ∈ entries (tree (files w)) loc →
         (len (str (make_child_relpath (data_dir self // flow_id) n)) < PATH_MAX)%Z) →
   ∃ names w', list_files self flow_id w = (inr names, w') ∧
               files w' = files w ∧
               NoDup names ∧
               ∀ n, n ∈ names ↔ ∃ content, tree (files w) !! (loc ++ [n]) = Some (File content)) ∧
  (∀ e, exists_ (files w) (data_dir self // flow_id) = inl e →
        e = OSError 36 (str (data_dir self // flow_id)) ∧
        list_files self flow_id w = (inl e, w)) ∧
  (∀ loc n, resolve (files w) (data_dir self // flow_id) = Found loc Dir →
            n ∈ entries (tree (files w)) loc →
            (PATH_MAX ≤ len (str (make_child_relpath (data_dir self // flow_id) n)))%Z →
            ∃ arg, list_files self flow_id w = (inl (OSError 36 arg), w)).
Proof.
  intros Hwf. split_and!.
  - intros Habs. rewrite list_files_absent by done. eauto.
  - intros loc Hres Hroom. rewrite (list_files_found _ _ _ Hwf Hres Hroom).
    eexists _, _. split; [done |]. split; [done |]. split.
    + apply NoDup_filter, NoDup_entries.
    + intros n. rewrite list_elem_of_filter, elem_of_entries. unfold regular.
      destruct (tree (files w) !! (loc ++ [n])) as [[content|]|].
      * split; [by eauto | intros _; split; [done | by eauto]].
      * split; [by intros [? _] | by intros [? ?]].
      * split; [by intros [? _] | by intros [? ?]].
  - intros e Hex. split; [by apply stat_test_inl in Hex as [? _] |].
    rewrite list_files_run. simpl. by rewrite Hex.
  - intros loc n Hres Hn Hlong. rewrite list_files_run. simpl.
    assert (exists_ (files w) (data_dir self // flow_id) = inr true) as ->.
    { apply exists_true. eauto. }
    assert (is_dir (files w) (data_dir self // flow_id) = inr true) as ->.
    { apply is_dir_true. eauto. }
    unfold iterdir. rewrite Hres.
    assert (path_has_nul (make_child_relpath (data_dir self // flow_id) n) = false) as Hnul.
    { rewrite path_has_nul_child.
      apply resolve_found in Hres as [_ [-> _]].
      destruct Hwf as [_ Hwf]. apply elem_of_entries in Hn.
      by destruct (Hwf loc n Hn) as (_ & (_ & _ & _ & _ & ->) & _). }
    pose proof (is_file_child_long (files w) _ _ Hnul Hlong) as Hraise.
    destruct (keep_files_raises (files w)
                (make_child_relpath (data_dir self // flow_id)
                   <$> entries (tree (files w)) loc) _ _
                (list_elem_of_fmap_2 _ _ _ Hn) Hraise) as [e He].
    rewrite He. destruct w as [f tr]. simpl in *.
    apply keep_files_inl in He as (c & _ & [-> _]%stat_test_inl). eauto.
Qed.

(** *** Reachable states are well-formed *)

Lemma step_wf o w :
  lexical (data_dir self) → wf (tree (files w)) → wf (tree (files (step self o w))).
Proof.
  intros Hlex Hwf. destruct o as [a b data | a b | a | a b |]; simpl.
  - rewrite save_file_run. simpl.
    destruct (mkdir _ (files w)) as [res f1] eqn:Emk.
    apply mkdir_wf in Emk as Hwf1; [|by apply joinpath_lexical | done].
    destruct res as [e|]; [done |].
    destruct (write_bytes _ data f1) as [e|f2] eqn:Ewr; [done |].
    by apply write_bytes_wf in Ewr as [? _]; [|by do 2 apply joinpath_lexical | done].
  - rewrite get_file_run. simpl.
    destruct (exists_ _ _) as [e|[]]; [done | | done]. by destruct (read_bytes _ _).
  - rewrite list_files_run. simpl.
    destruct (exists_ _ _) as [e|[]]; [done | | done].
    destruct (is_dir _ _) as [e|[]]; [done | | done].
    destruct (iterdir _ _); [done |]. by destruct (keep_files _ _).
  - rewrite delete_file_run. simpl.
    destruct (exists_ _ _) as [e|[]]; [done | | done].
    destruct (unlink _ (files w)) as [e|f'] eqn:Eun; [done |].
    by apply unlink_wf in Eun as [? _].
  - done.
Qed.

Lemma reachable_wf w0 w :
  lexical (data_dir self) → wf (tree (files w0)) → reachable self w0 w →
  wf (tree (files w)).
Proof.
  intros Hlex Hwf0 Hreach. induction Hreach as [|o w _ IH]; [done |].
  by apply step_wf.
Qed.

(** *** get and delete *)

Lemma get_file_ok_iff flow_id file_name w data :
  (∃ w', get_file self flow_id file_name w = (inr data, w')) ↔
  (∃ loc, resolve (files w) (data_dir self // flow_id // file_name) = Found loc (File data)).
Proof.
  rewrite get_file_run. simpl. unfold exists_, stat_test, read_bytes.
  destruct (resolve _ _) as [loc [content|]| |e]; split;
    try (by intros [? [=]]); try (by intros [? ?]).
  - intros [w' [= <- _]]. eauto.
  - intros [? [= _ <-]]. eauto.
  - by destruct (ignored e); intros [? [=]].
Qed.


Lemma get_file_absent flow_id file_name w :
  exists_ (files w) (data_dir self // flow_id // file_name) = inr false →
  get_file self flow_id file_name w
  = (inl (FileNotFoundError (not_found_msg flow_id file_name)),
     mkWorld (files w)
       (trace w ++ [Log WARNING (not_found_msg flow_id file_name +:+ ".")])).
Proof. intros Hex. rewrite get_file_run. simpl. by rewrite Hex. Qed.



(** C6, as the code has it. When [is_dir()] answers that
    [root/flow_id/file_name] is not a directory, [delete_file] returns:
    nothing exists at the path afterwards, so that [get_file] raises
    [FileNotFoundError]; and when nothing existed there the disk is
    unchanged. *)
Theorem delete_file_spec flow_id file_name w :
  is_dir (files w) (data_dir self // flow_id // file_name) = inr false →
  ∃ w', delete_file self flow_id file_name w = (inr tt, w') ∧
        (exists_ (files w) (data_dir self // flow_id // file_name) = inr false →
         files w' = files w) ∧
        ∃ w'', get_file self flow_id file_name w'
               = (inl (FileNotFoundError (not_found_msg flow_id file_name)), w'').
Proof.
  intros Hd. rewrite delete_file_run. simpl.
  destruct (is_dir_exists _ _ _ Hd) as ([] & Hex & _); rewrite Hex.
  - destruct (unlink _ (files w)) as [e|f'] eqn:Eun.
    { unfold unlink in Eun. unfold is_dir, stat_test in Hd.
      apply exists_true in Hex as (loc & n & Hres). rewrite Hres in Hd, Eun.
      by destruct n. }
    eexists. split; [done |]. split; [done |].
    apply unlink_exists in Eun. rewrite get_file_absent by done. eauto.
  - eexists. split; [done |]. split; [done |].
    rewrite get_file_absent by done. eauto.
Qed.

(** *** Names that stay inside keep an operation below the root *)

Lemma joinpath_inside p s :
  inside s → p // s = mkPath (p_anchor p) (p_parts p ++ parts_of s).
Proof. intros [Ha _]. unfold joinpath, parts_of. by rewrite Ha. Qed.

Lemma file_path_inside flow_id file_name :
  inside flow_id → inside file_name →
  data_dir self // flow_id // file_name
  = mkPath (p_anchor (data_dir self))
           (p_parts (data_dir self) ++ (parts_of flow_id ++ parts_of file_name)).
Proof.
  intros Hflow Hfile. rewrite !joinpath_inside by done. simpl. by rewrite app_assoc.
Qed.

Lemma inside_app flow_id file_name :
  inside flow_id → inside file_name → ".." ∉ parts_of flow_id ++ parts_of file_name.
Proof. intros [_ H1] [_ H2] [?|?]%elem_of_app; tauto. Qed.

Lemma plain_inside s : plain s → inside s ∧ parts_of s = [s].
Proof.
  intros (H1 & H2 & H3 & H4 & _). unfold inside, parts_of.
  rewrite parse_single by done. simpl. split_and!; [done | | done].
  intros ?%list_elem_of_singleton. congruence.
Qed.

Lemma save_file_inside flow_id file_name data w rloc :
  resolve (files w) (data_dir self) = Found rloc Dir →
  inside flow_id → inside file_name →
  resolve (files (save_file self flow_id file_name data w).2) (data_dir self)
  = Found rloc Dir ∧
  ∀ loc, tree (files (save_file self flow_id file_name data w).2) !! loc
         ≠ tree (files w) !! loc →
         op_change rloc (Save flow_id file_name data) (tree (files w))
           (tree (files (save_file self flow_id file_name data w).2)) loc.
Proof.
  intros Hroot Hflow Hfile. rewrite save_file_run. simpl.
  destruct (mkdir _ (files w)) as [res f1] eqn:Emk.
  pose proof Emk as Emk'. rewrite (joinpath_inside _ _ Hflow) in Emk'.
  apply (mkdir_under _ _ rloc) in Emk' as (Hroot1 & _ & Hcu); [|done | by destruct Hflow].
  assert (∀ loc, tree f1 !! loc ≠ tree (files w) !! loc →
                 ∃ pre, pre ≠ [] ∧ pre `prefix_of` parts_of flow_id ∧ loc = rloc ++ pre ∧
                        tree (files w) !! loc = None ∧ tree f1 !! loc = Some Dir) as Hdirs.
  { intros loc Hne. destruct (Hcu loc) as [? | (? & ? & pre & ? & ? & ?)]; [done |].
    exists pre. by split_and!. }
  destruct res as [e|]; [split; [done | by left; apply Hdirs] |].
  destruct (write_bytes _ data f1) as [e|f2] eqn:Ewr;
    [split; [done | by left; apply Hdirs] |].
  apply write_bytes_target in Ewr as (loc0 & Hnd & Hres0 & ->). simpl.
  pose proof (resolve_found _ _ _ _ Hroot1) as [Hrloc1 _].
  assert (loc0 = rloc ++ parts_of flow_id ++ parts_of file_name) as Hloc0.
  { pose proof (resolve_under f1 (data_dir self) rloc _ Hroot1
                  (inside_app _ _ Hflow Hfile)) as Hin.
    rewrite <- file_path_inside in Hin by done.
    by destruct Hres0 as [Hres0 | [x Hres0]]; rewrite Hres0 in Hin. }
  assert (parts_of file_name ≠ []) as Hname.
  { intros Hnil. apply mkdir_is_dir, is_dir_true in Emk as [l Hfolder].
    rewrite (joinpath_inside _ file_name Hfile), Hnil, app_nil_r in Hres0.
    assert (mkPath (p_anchor (data_dir self // flow_id)) (p_parts (data_dir self // flow_id))
            = data_dir self // flow_id) as Heq by by destruct (data_dir self // flow_id).
    rewrite Heq, Hfolder in Hres0. by destruct Hres0 as [? | [? ?]]. }
  split.
  - pose proof (resolve_insert f1 (data_dir self) loc0 (File data) Hnd) as H.
    rewrite Hroot1 in H. rewrite H. rewrite decide_False; [done | congruence].
  - intros loc Hne. destruct (decide (loc = loc0)) as [-> | Hloc].
    + right. split_and!; [done | done | | by rewrite lookup_insert_eq].
      destruct (Hcu loc0) as [E | [E _]]; congruence.
    + rewrite lookup_insert_ne in Hne by done.
      left. destruct (Hdirs loc Hne) as (pre & ? & ? & ? & ? & ?).
      exists pre. split_and!; try done. by rewrite lookup_insert_ne.
Qed.

Lemma delete_file_inside flow_id file_name w rloc :
  resolve (files w) (data_dir self) = Found rloc Dir →
  inside flow_id → inside file_name →
  resolve (files (delete_file self flow_id file_name w).2) (data_dir self)
  = Found rloc Dir ∧
  ∀ loc, tree (files (delete_file self flow_id file_name w).2) !! loc
         ≠ tree (files w) !! loc →
         op_change rloc (Delete flow_id file_name) (tree (files w))
           (tree (files (delete_file self flow_id file_name w).2)) loc.
Proof.
  intros Hroot Hflow Hfile. rewrite delete_file_run. simpl.
  destruct (exists_ _ _) as [e|[]]; [done | | done].
  destruct (unlink _ (files w)) as [e|f'] eqn:Eun; [done |].
  apply unlink_inr in Eun as (loc0 & x & Hres0 & ->). simpl.
  pose proof (resolve_found _ _ _ _ Hres0) as [Hloc0 _].
  pose proof (resolve_found _ _ _ _ Hroot) as [Hrloc _].
  split.
  - pose proof (resolve_delete (files w) (data_dir self) loc0 x Hloc0) as H.
    rewrite Hroot in H. rewrite decide_False in H; [done | congruence].
  - intros loc Hne. destruct (decide (loc = loc0)) as [-> | Hloc];
      [|by rewrite lookup_delete_ne in Hne].
    split_and!; [| by eauto | by rewrite lookup_delete_eq].
    pose proof (resolve_under (files w) (data_dir self) rloc _ Hroot
                  (inside_app _ _ Hflow Hfile)) as Hin.
    rewrite <- file_path_inside in Hin by done. by rewrite Hres0 in Hin.
Qed.

Lemma step_inside o w rloc :
  resolve (files w) (data_dir self) = Found rloc Dir → op_inside o →
  resolve (files (step self o w)) (data_dir self) = Found rloc Dir ∧
  ∀ loc, tree (files (step self o w)) !! loc ≠ tree (files w) !! loc →
         op_change rloc o (tree (files w)) (tree (files (step self o w))) loc.
Proof.
  intros Hroot Hin. destruct o as [a b data | a b | a | a b |]; simpl.
  - destruct Hin as (? & _ & ?). by apply save_file_inside.
  - rewrite get_file_run. simpl.
    destruct (exists_ _ _) as [e|[]]; [done | | done]. by destruct (read_bytes _ _).
  - rewrite list_files_run. simpl.
    destruct (exists_ _ _) as [e|[]]; [done | | done].
    destruct (is_dir _ _) as [e|[]]; [done | | done].
    destruct (iterdir _ _); [done |]. by destruct (keep_files _ _).
  - destruct Hin as (? & _ & ?). by apply delete_file_inside.
  - done.
Qed.

(** C8, as the code has it. With the root an existing directory, and a flow
    id and a file name that are not absolute and have no [..] component, the
    flow id naming at least one directory: after any operation, returned or
    raised, the root resolves to the directory it was; a save has changed
    nothing but directories created along its flow id below the root and the
    regular file at [root/flow_id/file_name]; a delete has changed nothing
    but the regular file at [root/flow_id/file_name], removed; the other
    operations have changed nothing. *)
Theorem operations_stay_below_root o w rloc :
  resolve (files w) (data_dir self) = Found rloc Dir →
  op_inside o →
  resolve (files (step self o w)) (data_dir self) = Found rloc Dir ∧
  ∀ loc, tree (files (step self o w)) !! loc ≠ tree (files w) !! loc →
         op_change rloc o (tree (files w)) (tree (files (step self o w))) loc.
Proof. apply step_inside. Qed.

(** *** Plain keys do not interfere *)

Lemma resolve_child_found f p n l nd :
  n ≠ "" → n ≠ ".." → resolve f (make_child_relpath p n) = Found l nd →
  ∃ loc, resolve f p = Found loc Dir ∧ l = loc ++ [n] ∧
         (len n ≤ NAME_MAX)%Z ∧ tree f !! l = Some nd.
Proof.
  intros Hne Hdd Hres.
  pose proof (resolve_found _ _ _ _ Hres) as [Hl [_ Hlen]].
  destruct (resolve_child_inv f p n l Hdd) as (loc & Hwalk & -> & Hmax & Hnul & _);
    [by eauto |].
  exists loc. split_and!; try done.
  rewrite resolve_fits; [done |]. split; [done |].
  pose proof (len_child_ge p n Hne). lia.
Qed.

(** The path of a key with plain names, in a flow directory that exists. *)
Lemma resolve_file_path f rloc a b :
  resolve f (data_dir self) = Found rloc Dir → plain a → plain b →
  (len a ≤ NAME_MAX)%Z → (len b ≤ NAME_MAX)%Z →
  (len (str (data_dir self // a // b)) < PATH_MAX)%Z →
  tree f !! (rloc ++ [a]) = Some Dir →
  resolve f (data_dir self // a) = Found (rloc ++ [a]) Dir ∧
  resolve f (data_dir self // a // b)
  = match tree f !! (rloc ++ [a; b]) with
    | Some nd => Found (rloc ++ [a; b]) nd
    | None => Missing (rloc ++ [a; b])
    end.
Proof.
  intros Hroot Ha Hb Hla Hlb. rewrite !joinpath_plain by done. intros Hlen Hdir.
  pose proof Ha as (_ & _ & Hdda & _ & Hnula).
  pose proof Hb as (Hneb & _ & Hddb & _ & Hnulb).
  assert (len (str (make_child_relpath (data_dir self) a)) < PATH_MAX)%Z as Hlen'.
  { pose proof (len_child_ge (make_child_relpath (data_dir self) a) b Hneb). lia. }
  pose proof (resolve_child _ _ _ _ Hroot Hdda Hnula Hla Hlen') as Hflow.
  rewrite Hdir in Hflow. split; [done |].
  rewrite (resolve_child _ _ _ _ Hflow Hddb Hnulb Hlb Hlen), <- app_assoc. done.
Qed.

(** What a save that returned has put in place. *)
Lemma saved_key flow_id file_name data w w1 rloc :
  resolve (files w) (data_dir self) = Found rloc Dir →
  plain flow_id → plain file_name →
  save_file self flow_id file_name data w = (inr tt, w1) →
  resolve (files w1) (data_dir self) = Found rloc Dir ∧
  tree (files w1) !! (rloc ++ [flow_id]) = Some Dir ∧
  tree (files w1) !! (rloc ++ [flow_id; file_name]) = Some (File data) ∧
  (len flow_id ≤ NAME_MAX)%Z ∧ (len file_name ≤ NAME_MAX)%Z ∧
  (len (str (data_dir self // flow_id // file_name)) < PATH_MAX)%Z.
Proof.
  intros Hroot Ha Hb Hsave.
  pose proof (plain_inside _ Ha) as [Hia _]. pose proof (plain_inside _ Hb) as [Hib _].
  pose proof (save_file_inside flow_id file_name data w rloc Hroot Hia Hib) as [Hroot1 _].
  rewrite Hsave in Hroot1. simpl in Hroot1.
  pose proof (get_after_save _ _ _ _ _ Hsave) as Hget.
  assert (∃ loc, resolve (files w1) (data_dir self // flow_id // file_name)
                 = Found loc (File data)) as [l Hres].
  { apply get_file_ok_iff. eauto. }
  pose proof (resolve_found _ _ _ _ Hres) as [_ [_ Hlen]].
  rewrite !joinpath_plain in Hres by done.
  pose proof Ha as (Hnea & _ & Hdda & _). pose proof Hb as (Hneb & _ & Hddb & _).
  apply resolve_child_found in Hres as (l1 & Hres1 & -> & Hlb & Hfile); [|done..].
  apply resolve_child_found in Hres1 as (l0 & Hres0 & -> & Hla & Hdir); [|done..].
  rewrite Hroot1 in Hres0. injection Hres0 as <-.
  rewrite <- app_assoc in Hfile. by split_and!.
Qed.

(** A save with plain names that fit returns unless a regular file sits
    where the flow directory should be or a directory where the file should
    be. *)
Lemma save_file_returns flow_id file_name data w rloc :
  resolve (files w) (data_dir self) = Found rloc Dir →
  plain flow_id → plain file_name →
  (len flow_id ≤ NAME_MAX)%Z → (len file_name ≤ NAME_MAX)%Z →
  (len (str (data_dir self // flow_id // file_name)) < PATH_MAX)%Z →
  (∀ x, tree (files w) !! (rloc ++ [flow_id]) ≠ Some (File x)) →
  tree (files w) !! (rloc ++ [flow_id; file_name]) ≠ Some Dir →
  ∃ w1, save_file self flow_id file_name data w = (inr tt, w1) ∧
        resolve (files w1) (data_dir self) = Found rloc Dir ∧
        tree (files w1) !! (rloc ++ [flow_id]) = Some Dir ∧
        tree (files w1) !! (rloc ++ [flow_id; file_name]) = Some (File data).
Proof.
  intros Hroot Ha Hb Hla Hlb Hlen Hnofile Hnodir.
  assert (∃ w1, save_file self flow_id file_name data w = (inr tt, w1)) as [w1 Hsave].
  { rewrite save_file_run. simpl.
    assert (len (str (data_dir self // flow_id)) < PATH_MAX)%Z as Hlen'.
    { rewrite (joinpath_plain _ file_name) in Hlen by done.
      pose proof (len_child_ge (data_dir self // flow_id) file_name
                    (proj1 Hb)). lia. }
    rewrite (mkdir_child _ _ _ _ Hroot Ha Hla Hlen').
    pose proof (resolve_insert (files w) (data_dir self) (rloc ++ [flow_id]) Dir) as Hins.
    rewrite Hroot in Hins.
    assert (∃ f1, (match tree (files w) !! (rloc ++ [flow_id]) with
                   | None => (None, set_tree (files w)
                                      (<[rloc ++ [flow_id] := Dir]> (tree (files w))))
                   | Some Dir => (None, files w)
                   | Some (File _) =>
                       (Some (FileExistsError (str (data_dir self // flow_id))), files w)
                   end) = (None, f1) ∧
                  resolve f1 (data_dir self) = Found rloc Dir ∧
                  tree f1 !! (rloc ++ [flow_id]) = Some Dir ∧
                  tree f1 !! (rloc ++ [flow_id; file_name]) ≠ Some Dir)
      as (f1 & -> & Hroot1 & Hdir1 & Hnodir1).
    { destruct (tree (files w) !! (rloc ++ [flow_id])) as [[x|]|] eqn:Ea.
      - by destruct (Hnofile x).
      - by exists (files w).
      - eexists. split; [done |]. simpl. split_and!.
        + rewrite Hins by congruence. by case_decide.
        + by rewrite lookup_insert_eq.
        + rewrite lookup_insert_ne; [done |].
          intros H; apply (f_equal length) in H; rewrite !length_app in H;
            simpl in H; lia. }
    destruct (resolve_file_path _ _ _ _ Hroot1 Ha Hb Hla Hlb Hlen Hdir1) as [_ Hpath].
    unfold write_bytes. rewrite Hpath.
    destruct (tree f1 !! (rloc ++ [flow_id; file_name])) as [[y|]|]; by eauto. }
  exists w1. split; [done |].
  by destruct (saved_key _ _ _ _ _ _ Hroot Ha Hb Hsave) as (? & ? & ? & _).
Qed.

Ltac loc_neq :=
  let H := fresh in
  intros H; apply (f_equal length) in H; rewrite ?length_app in H; simpl in H; lia.

(** One operation with plain names on another key leaves a saved file, its
    flow directory and the root in place. *)
Lemma step_keeps_other_key o w rloc a b data :
  resolve (files w) (data_dir self) = Found rloc Dir →
  op_plain o → plain a → plain b → op_key o ≠ Some (a, b) →
  tree (files w) !! (rloc ++ [a]) = Some Dir →
  tree (files w) !! (rloc ++ [a; b]) = Some (File data) →
  resolve (files (step self o w)) (data_dir self) = Found rloc Dir ∧
  tree (files (step self o w)) !! (rloc ++ [a]) = Some Dir ∧
  tree (files (step self o w)) !! (rloc ++ [a; b]) = Some (File data).
Proof.
  intros Hroot Hplain Ha Hb Hkey Hdir Hfile.
  assert (op_inside o) as Hin.
  { destruct o as [a' b' d' | a' b' | a' | a' b' |]; simpl in *; try done;
      destruct Hplain as [[? Hp]%plain_inside [? _]%plain_inside];
      by rewrite Hp. }
  destruct (step_inside o w rloc Hroot Hin) as [Hroot' Hchange].
  split; [done |].
  assert (∀ loc nd, tree (files w) !! loc = Some nd →
                    (loc = rloc ++ [a] ∨ loc = rloc ++ [a; b]) →
                    tree (files (step self o w)) !! loc = Some nd) as Hkeep.
  { intros loc nd Hloc Hwhich.
    destruct (decide (tree (files (step self o w)) !! loc = tree (files w) !! loc))
      as [-> | Hne]; [done |].
    apply Hchange in Hne.
    destruct o as [a' b' d' | a' b' | a' | a' b' |]; simpl in *; try done.
    - destruct Hplain as [[_ Hpa]%plain_inside [_ Hpb]%plain_inside].
      rewrite Hpa, Hpb in Hne.
      destruct Hne as [(pre & _ & _ & _ & Hnone & _) | (-> & _)]; [congruence |].
      destruct Hwhich as [Hw | Hw]; apply app_inv_head in Hw; [done |].
      injection Hw as -> ->. by destruct Hkey.
    - destruct Hplain as [[_ Hpa]%plain_inside [_ Hpb]%plain_inside].
      rewrite Hpa, Hpb in Hne. destruct Hne as (-> & _).
      destruct Hwhich as [Hw | Hw]; apply app_inv_head in Hw; [done |].
      injection Hw as -> ->. by destruct Hkey. }
  split; apply Hkeep; auto.
Qed.

(** X18. Round trip with other work in between: after a save with plain names,
    any operations with plain names that do not write or remove that key
    leave [get_file] returning the saved bytes. *)
Lemma save_then_others_then_get flow_id file_name data w w1 rloc os :
  resolve (files w) (data_dir self) = Found rloc Dir →
  plain flow_id → plain file_name →
  save_file self flow_id file_name data w = (inr tt, w1) →
  Forall (λ o, op_plain o ∧ op_key o ≠ Some (flow_id, file_name)) os →
  ∃ w2, get_file self flow_id file_name (run_ops self os w1) = (inr data, w2).
Proof.
  intros Hroot Ha Hb Hsave Hos.
  destruct (saved_key _ _ _ _ _ _ Hroot Ha Hb Hsave)
    as (Hroot1 & Hdir1 & Hfile1 & Hla & Hlb & Hlen).
  assert (resolve (files w1) (data_dir self) = Found rloc Dir ∧
          tree (files w1) !! (rloc ++ [flow_id]) = Some Dir ∧
          tree (files w1) !! (rloc ++ [flow_id; file_name]) = Some (File data)) as Hinv
    by done.
  clear Hsave Hroot Hroot1 Hdir1 Hfile1. revert w1 Hinv.
  induction Hos as [|o os [Ho Hkey] _ IH]; intros w1 (Hroot & Hdir & Hfile); simpl.
  - destruct (resolve_file_path _ _ _ _ Hroot Ha Hb Hla Hlb Hlen Hdir) as [_ Hpath].
    rewrite Hfile in Hpath. apply get_file_ok_iff. eauto.
  - apply IH. by apply step_keeps_other_key.
Qed.

End Runs.

(** *** The statements at sample states *)

Import Sample Sample2.

Lemma svc_lexical : lexical (data_dir svc).
Proof. apply parse_lexical. Qed.

Lemma bare_wf : wf (tree bare).
Proof. apply wfb_sound. vm_compute. reflexivity. Qed.

Lemma nested_wf : wf (tree nested).
Proof. apply wfb_sound. vm_compute. reflexivity. Qed.

Lemma deep_wf : wf (tree deep).
Proof. apply wfb_sound. vm_compute. reflexivity. Qed.



Lemma get_missing_witness :
  (exists_ bare (data_dir svc // "f1" // "x.txt") = inr false ∧
   get_file svc "f1" "x.txt" (fresh bare)
   = (inl (FileNotFoundError "File x.txt not found in flow f1"),
      mkWorld bare [Log WARNING "File x.txt not found in flow f1."])) ∧
  (exists_ nested (data_dir svc // "f1" // long_name)
   = inl (OSError 36 (str (data_dir svc // "f1" // long_name))) ∧
   get_file svc "f1" long_name (fresh nested)
   = (inl (OSError 36 (str (data_dir svc // "f1" // long_name))), fresh nested)).
Proof.
  assert (exists_ (files (fresh bare)) (data_dir svc // "f1" // "x.txt") = inr false) as H
    by (vm_compute; reflexivity).
  assert (exists_ (files (fresh nested)) (data_dir svc // "f1" // long_name)
          = inl (OSError 36 (str (data_dir svc // "f1" // long_name)))) as H'
    by (vm_compute; reflexivity).
  split.
  - split; [exact H |]. exact (proj1 (get_missing svc "f1" "x.txt" (fresh bare)) H).
  - split; [exact H' |].
    exact (proj2 (proj2 (get_missing svc "f1" long_name (fresh nested)) _ H')).
Defined.

Lemma save_failed_write_keeps_directory_witness :
  is_dir bare (data_dir svc // "f1") = inr false ∧
  ∃ w', save_file svc "f1" "sub/x.txt" ["x"%byte] (fresh bare)
        = (inl (FileNotFoundError "/data/f1/sub/x.txt"), w') ∧
        files w' = with_flow ∧
        is_dir (files w') (data_dir svc // "f1") = inr true.
Proof.
  split; [vm_compute; reflexivity |].
  apply (save_failed_write_keeps_directory svc "f1" "sub/x.txt" ["x"%byte] (fresh bare)).
  - vm_compute. reflexivity.
  - vm_compute. reflexivity.
Defined.

Lemma build_full_path_concatenates_witness :
  p_parts (data_dir svc) ≠ [] ∧ clean "f1/a" ∧ clean "x.txt" ∧
  build_full_path svc "f1/a" "x.txt" = "/data/f1/a/x.txt".
Proof.
  assert (p_parts (data_dir svc) ≠ []) as Hroot by (vm_compute; discriminate).
  assert (clean "f1/a") as Hflow
    by (apply (bool_decide_eq_true_1 (clean "f1/a")); vm_compute; reflexivity).
  assert (clean "x.txt") as Hfile
    by (apply (bool_decide_eq_true_1 (clean "x.txt")); vm_compute; reflexivity).
  split_and!; [exact Hroot | exact Hflow | exact Hfile |].
  rewrite (proj2 (build_full_path_concatenates svc "f1/a" "x.txt") Hroot Hflow Hfile).
  reflexivity.
Defined.

Lemma list_files_spec_witness :
  (∃ w', list_files svc "nope" (fresh nested)
         = (inl (FileNotFoundError "Flow nope directory does not exist."), w') ∧
         files w' = nested) ∧
  (∃ names w', list_files svc "f1" (fresh nested) = (inr names, w') ∧
               files w' = nested ∧ NoDup names ∧
               ∀ n, n ∈ names ↔
                    ∃ content, tree nested !! (["data"; "f1"] ++ [n]) = Some (File content)) ∧
  list_files svc long_name (fresh nested)
  = (inl (OSError 36 (str (data_dir svc // long_name))), fresh nested) ∧
  (∃ arg, list_files deep_svc "f" (fresh deep) = (inl (OSError 36 arg), fresh deep)).
Proof.
  destruct (list_files_spec svc "nope" (fresh nested) nested_wf) as (Habsent & _).
  destruct (list_files_spec svc "f1" (fresh nested) nested_wf) as (_ & Hfound & _).
  destruct (list_files_spec svc long_name (fresh nested) nested_wf) as (_ & _ & Hraise & _).
  destruct (list_files_spec deep_svc "f" (fresh deep) deep_wf) as (_ & _ & _ & Hlong).
  split_and!.
  - apply Habsent. left. vm_compute. reflexivity.
  - apply (Hfound ["data"; "f1"]); [vm_compute; reflexivity |].
    apply Forall_forall.
    apply (bool_decide_eq_true_1
             (Forall (λ n, (len (str (make_child_relpath (data_dir svc // "f1") n))
                            < PATH_MAX)%Z)
                     (entries (tree (files (fresh nested))) ["data"; "f1"]))).
    vm_compute. reflexivity.
  - apply (Hraise (OSError 36 (str (data_dir svc // long_name)))).
    vm_compute. reflexivity.
  - apply (Hlong (deep_root ++ ["f"]) entry_100).
    + vm_compute. reflexivity.
    + apply elem_of_entries. vm_compute. eauto.
    + vm_compute. discriminate.
Defined.


Lemma delete_file_spec_witness :
  is_dir nested (data_dir svc // "f1" // "a.txt") = inr false ∧
  ∃ w', delete_file svc "f1" "a.txt" (fresh nested) = (inr tt, w') ∧
        (exists_ nested (data_dir svc // "f1" // "a.txt") = inr false → files w' = nested) ∧
        ∃ w'', get_file svc "f1" "a.txt" w'
               = (inl (FileNotFoundError "File a.txt not found in flow f1"), w'').
Proof.
  assert (is_dir (files (fresh nested)) (data_dir svc // "f1" // "a.txt") = inr false) as H
    by (vm_compute; reflexivity).
  split; [exact H |]. exact (delete_file_spec svc "f1" "a.txt" (fresh nested) H).
Defined.

Lemma operations_stay_below_root_witness :
  resolve bare (data_dir svc) = Found ["data"] Dir ∧
  op_inside (Save "f1/a" "b" ["d"%byte]) ∧
  resolve (files (step svc (Save "f1/a" "b" ["d"%byte]) (fresh bare))) (data_dir svc)
  = Found ["data"] Dir ∧
  ∀ loc,
    tree (files (step svc (Save "f1/a" "b" ["d"%byte]) (fresh bare))) !! loc
      ≠ tree bare !! loc →
    op_change ["data"] (Save "f1/a" "b" ["d"%byte]) (tree bare)
      (tree (files (step svc (Save "f1/a" "b" ["d"%byte]) (fresh bare)))) loc.
Proof.
  assert (resolve (files (fresh bare)) (data_dir svc) = Found ["data"] Dir) as H
    by (vm_compute; reflexivity).
  assert (op_inside (Save "f1/a" "b" ["d"%byte])) as Hin
    by (apply (bool_decide_eq_true_1 (op_inside (Save "f1/a" "b" ["d"%byte])));
        vm_compute; reflexivity).
  split; [exact H |]. split; [exact Hin |].
  exact (operations_stay_below_root svc (Save "f1/a" "b" ["d"%byte]) (fresh bare)
           ["data"] H Hin).
Defined.


(** C4, as the claim has it, fails: no file exists under a name of 256
    bytes, one more than a name can have, and [get_file] with that name
    raises the [OSError] of [exists()], not [FileNotFoundError], and logs
    nothing. *)
Lemma get_file_name_too_long :
  tree nested !! ["data"; "f1"; long_name] = None ∧
  resolve nested (data_dir svc // "f1" // long_name) = Failed ENAMETOOLONG ∧
  get_file svc "f1" long_name (fresh nested)
  = (inl (OSError 36 (str (data_dir svc // "f1" // long_name))), fresh nested).
Proof. vm_compute. repeat split. Qed.

(** C5, as the claim has it, fails: no directory exists under a flow id of
    256 bytes, and [list_files] with that flow id raises the [OSError] of
    [exists()], not [FileNotFoundError]; and in a flow directory that exists
    and holds one regular file, whose path through the root has no room,
    [list_files] raises the [OSError] of [is_file()] instead of returning the
    name. *)
Lemma list_files_name_too_long :
  (tree nested !! ["data"; long_name] = None ∧
   list_files svc long_name (fresh nested)
   = (inl (OSError 36 (str (data_dir svc // long_name))), fresh nested)) ∧
  (is_dir deep (data_dir deep_svc // "f") = inr true ∧
   tree deep !! (deep_root ++ ["f"; entry_100]) = Some (File ["b"%byte]) ∧
   (list_files deep_svc "f" (fresh deep)).1
   = inl (OSError 36 (str (data_dir deep_svc // "f" // entry_100)))).
Proof. split_and!; vm_compute; reflexivity. Qed.

(** C6, as the claim has it, fails: [delete_file] on a path occupied by a
    directory raises, and the directory stays. *)
Lemma delete_file_on_directory_raises :
  delete_file svc "f1" "sub" (fresh nested)
  = (inl (IsADirectoryError "/data/f1/sub"),
     mkWorld nested [Call Unlink (data_dir svc // "f1" // "sub")]).
Proof. vm_compute. reflexivity. Qed.

(** C7, as the claim has it, fails: with a file name that starts with a
    slash the result is the file name alone, without the root and the flow
    id; and with an empty flow id it is the root and the file name. *)
Lemma build_full_path_is_not_concatenation :
  build_full_path svc "f1" "/etc/passwd" = "/etc/passwd" ∧
  str (data_dir svc) +:+ "/" +:+ "f1" +:+ "/" +:+ "/etc/passwd" = "/data/f1//etc/passwd" ∧
  build_full_path svc "" "x.txt" = "/data/x.txt" ∧
  str (data_dir svc) +:+ "/" +:+ "" +:+ "/" +:+ "x.txt" = "/data//x.txt".
Proof. vm_compute. repeat split. Qed.

(** C8, as the claim has it, fails: with the flow id [..] a save succeeds
    and writes a file next to the root directory, not under it; when the
    root directory does not exist a save creates it; and with an empty flow
    id a save writes the file in the root directory itself. *)
Lemma save_file_leaves_and_creates_root :
  ((save_file svc ".." "x.txt" ["x"%byte] (fresh bare)).1 = inr tt ∧
   tree bare !! ["x.txt"] = None ∧
   tree (files (save_file svc ".." "x.txt" ["x"%byte] (fresh bare)).2) !! ["x.txt"]
   = Some (File ["x"%byte])) ∧
  ((save_file svc "f1" "x.txt" ["x"%byte] (fresh rootless)).1 = inr tt ∧
   tree rootless !! ["data"] = None ∧
   tree (files (save_file svc "f1" "x.txt" ["x"%byte] (fresh rootless)).2) !! ["data"]
   = Some Dir) ∧
  ((save_file svc "" "x.txt" ["x"%byte] (fresh bare)).1 = inr tt ∧
   tree (files (save_file svc "" "x.txt" ["x"%byte] (fresh bare)).2) !! ["data"; "x.txt"]
   = Some (File ["x"%byte])).
Proof. vm_compute. repeat split. Qed.

End StorageFacts.

(** * Further properties *)

(** ** fib.py: the list as a whole *)

Module FibMore.

Import Fib FibFacts.
Open Scope Z_scope.

Lemma F_pair_nonneg k : 0 ≤ F k ∧ 0 ≤ F (S k).
Proof.
  induction k as [|k [IH0 IH1]]; [by vm_compute |].
  rewrite F_step. lia.
Qed.

Lemma F_succ_le k : F k ≤ F (S k).
Proof.
  destruct k as [|k]; [by vm_compute |].
  rewrite F_step. pose proof (F_pair_nonneg k). lia.
Qed.

Lemma F_le i j : (i ≤ j)%nat → F i ≤ F j.
Proof.
  induction 1 as [|j _ IH]; [lia |]. pose proof (F_succ_le j). lia.
Qed.

Lemma fibonacci_lookup_Some n i x :
  fibonacci n !! i = Some x → x = F i ∧ (i < Z.to_nat n)%nat.
Proof.
  rewrite fibonacci_closed, list_lookup_fmap.
  destruct (seq 0 (Z.to_nat n) !! i) as [j|] eqn:E; [|done].
  apply lookup_seq in E as [-> ?]. simpl. by intros [= <-].
Qed.

(** X1. A shorter request is a prefix of a longer one: the first [m]
    elements of [fibonacci n] are [fibonacci m]. *)
Theorem fibonacci_prefix (m n : Z) :
  m ≤ n → fibonacci m = take (Z.to_nat m) (fibonacci n).
Proof.
  intros Hmn. rewrite !fibonacci_closed, <- fmap_take, take_seq.
  by replace (Z.to_nat m `min` Z.to_nat n)%nat with (Z.to_nat m) by lia.
Qed.

Lemma fibonacci_prefix_witness : fibonacci 3 = take 3 (fibonacci 8).
Proof. apply (fibonacci_prefix 3 8). lia. Defined.

(** X2. The elements never decrease and none is negative. *)
Theorem fibonacci_sorted (n : Z) (i j : nat) (x y : Z) :
  (i ≤ j)%nat → fibonacci n !! i = Some x → fibonacci n !! j = Some y →
  0 ≤ x ≤ y.
Proof.
  intros Hij [-> _]%fibonacci_lookup_Some [-> _]%fibonacci_lookup_Some.
  split; [apply F_pair_nonneg | by apply F_le].
Qed.

Lemma fibonacci_sorted_witness :
  fibonacci 10 !! 3%nat = Some 2 ∧ fibonacci 10 !! 6%nat = Some 8 ∧ 0 ≤ 2 ≤ 8.
Proof.
  split; [reflexivity |]. split; [reflexivity |].
  apply (fibonacci_sorted 10 3 6 2 8); [lia | reflexivity | reflexivity].
Defined.

End FibMore.

(** ** pathlib: the string of a path, read back *)

Module PathMore.

Import PurePath PathFacts LocalStorage.

Lemma append_cons a (x r : string) : String a x +:+ r = String a (x +:+ r).
Proof. reflexivity. Qed.

Lemma split_slash_sep x s :
  has_char slash x = false → split_slash (x +:+ "/" +:+ s) = x :: split_slash s.
Proof.
  induction x as [|a x IH]; intros Hx.
  - reflexivity.
  - simpl in Hx. apply orb_false_elim in Hx as [Ha Hx].
    apply bool_decide_eq_false in Ha.
    rewrite append_cons. simpl. rewrite decide_False by done. by rewrite IH.
Qed.

Lemma split_slash_join l :
  Forall component l → l ≠ [] → split_slash (join_parts l) = l.
Proof.
  induction l as [|x l IH]; [done |]. intros Hall _.
  inversion_clear Hall as [|? ? (_ & _ & Hx) Hl].
  destruct l as [|y l]; [by apply split_slash_single |].
  change (join_parts (x :: y :: l)) with (x +:+ "/" +:+ join_parts (y :: l)).
  rewrite split_slash_sep by done. by rewrite IH.
Qed.

Lemma filter_kept l : Forall component l → filter (λ x, kept x = true) l = l.
Proof.
  induction 1 as [|x l (? & ? & _) _ IH]; [done |].
  rewrite filter_cons_True by (by apply kept_spec). by rewrite IH.
Qed.

Lemma leading_slashes_join l : Forall component l → leading_slashes (join_parts l) = O.
Proof.
  intros Hall. destruct l as [|x l]; [done |].
  inversion_clear Hall as [|? ? (Hne & _ & Hx) _].
  destruct x as [|a x]; [done |]. simpl in Hx.
  apply orb_false_elim in Hx as [Ha _]. apply bool_decide_eq_false in Ha.
  destruct l; simpl; [|rewrite append_cons; simpl]; by rewrite decide_False.
Qed.

Lemma parts_of_join l :
  Forall component l →
  filter (λ x, kept x = true) (split_slash (join_parts l)) = l.
Proof.
  intros Hall. destruct l as [|x l]; [done |].
  rewrite split_slash_join by done. by apply filter_kept.
Qed.

(** Reading the string of a path back gives the path. *)
Lemma parse_str p : lexical p → parse (str p) = p.
Proof.
  destruct p as [a l]. unfold lexical. simpl. intros Hall.
  pose proof (leading_slashes_join l Hall) as Hlead.
  pose proof (parts_of_join l Hall) as Hparts.
  assert (str (mkPath a l)
          = match a, l with
            | Relative, [] => "."
            | Relative, _ => join_parts l
            | Root, _ => String slash (join_parts l)
            | DoubleRoot, _ => String slash (String slash (join_parts l))
            end) as ->.
  { by destruct a, l. }
  unfold parse, splitroot.
  destruct a; [destruct l as [|x l]; [done |] | |].
  - by rewrite Hlead, Hparts.
  - cbn [leading_slashes split_slash]. rewrite !decide_True by done.
    rewrite Hlead, filter_cons_False by (by intros [? _]%kept_spec).
    by rewrite Hparts.
  - cbn [leading_slashes split_slash]. rewrite !decide_True by done.
    rewrite Hlead, !filter_cons_False by (by intros [? _]%kept_spec).
    by rewrite Hparts.
Qed.

(** X3. The string [build_full_path] returns, given to [Path] again, is the
    path the service itself uses for that key in [save_file], [get_file] and
    [delete_file]. *)
Theorem build_full_path_parses_back (config_dir flow_id file_name : string) :
  parse (build_full_path (init config_dir) flow_id file_name)
  = data_dir (init config_dir) // flow_id // file_name.
Proof.
  unfold build_full_path. apply parse_str.
  do 2 apply joinpath_lexical. apply parse_lexical.
Qed.

(** X4. A file name that starts with a slash replaces the root and the flow
    id: the path is the file name's own, whatever the service and the flow. *)
Theorem absolute_file_name_drops_root (self self' : LocalStorageService)
    (flow_id flow_id' s : string) :
  data_dir self // flow_id // String slash s = parse (String slash s) ∧
  build_full_path self flow_id (String slash s)
  = build_full_path self' flow_id' (String slash s).
Proof.
  assert (∀ p, p // String slash s = parse (String slash s)) as H.
  { intros p. unfold joinpath, parse at 1, splitroot.
    cbn [leading_slashes p_anchor]. rewrite decide_True by done.
    by destruct (leading_slashes s) as [|[|?]]. }
  unfold build_full_path. by rewrite !H.
Qed.

End PathMore.

(** ** LocalStorageService: how the operations compose and what they leave alone *)

Module StorageMore.

Import PurePath Disk LocalStorage PathFacts DiskFacts StorageFacts.

Section More.

Variable self : LocalStorageService.

Lemma unlink_target p f f' :
  unlink p f = inr f' →
  ∃ loc x, tree f !! loc = Some (File x) ∧ tree f' = delete loc (tree f).
Proof.
  intros (loc & x & Hres & ->)%unlink_inr. exists loc, x. split; [|done].
  by apply resolve_found in Hres as [? _].
Qed.

(** *** What the operations leave alone *)

Lemma get_file_keeps_disk flow_id file_name w :
  files (get_file self flow_id file_name w).2 = files w.
Proof.
  rewrite get_file_run. simpl.
  destruct (exists_ _ _) as [e|[]]; [done | | done]. by destruct (read_bytes _ _).
Qed.

Lemma list_files_keeps_disk flow_id w :
  files (list_files self flow_id w).2 = files w.
Proof.
  rewrite list_files_run. simpl.
  destruct (exists_ _ _) as [e|[]]; [done | | done].
  destruct (is_dir _ _) as [e|[]]; [done | | done].
  destruct (iterdir _ _); [done |]. by destruct (keep_files _ _).
Qed.

(** X5. [get_file] and [list_files] only read: whether they return or
    raise, the disk after the call is the disk before it. *)
Theorem reads_leave_disk flow_id file_name w :
  files (get_file self flow_id file_name w).2 = files w ∧
  files (list_files self flow_id w).2 = files w.
Proof. split; [apply get_file_keeps_disk | apply list_files_keeps_disk]. Qed.

(** X6. No operation removes or replaces a directory: a flow directory
    stays when its files are deleted, whatever the names given. *)
Theorem directories_stay o w loc :
  tree (files w) !! loc = Some Dir →
  tree (files (step self o w)) !! loc = Some Dir.
Proof.
  intros Hdir. destruct o as [a b data | a b | a | a b |]; simpl.
  - rewrite save_file_run. simpl.
    destruct (mkdir _ (files w)) as [res f1] eqn:Emk.
    assert (tree f1 !! loc = Some Dir) as Hdir1.
    { destruct (mkdir_adds _ _ _ _ Emk) as [_ Hadd].
      destruct (Hadd loc) as [-> | [? ?]]; congruence. }
    destruct res as [e|]; [done |].
    destruct (write_bytes _ data f1) as [e|f2] eqn:Ewr; [done |]. simpl.
    apply write_bytes_target in Ewr as (l & Hl & _ & ->). simpl.
    rewrite lookup_insert_ne; [done | congruence].
  - by rewrite get_file_keeps_disk.
  - by rewrite list_files_keeps_disk.
  - rewrite delete_file_run. simpl.
    destruct (exists_ _ _) as [e|[]]; [done | | done].
    destruct (unlink _ (files w)) as [e|f'] eqn:Eun; [done |]. simpl.
    apply unlink_target in Eun as (l & x & Hl & ->).
    rewrite lookup_delete_ne; [done | congruence].
  - done.
Qed.

(** The tree after [save_file]: directories added by [mkdir], then at most
    one regular file put in place. *)
Lemma save_file_tree flow_id file_name data w :
  ∃ t1, (∀ loc, t1 !! loc = tree (files w) !! loc ∨
                (tree (files w) !! loc = None ∧ t1 !! loc = Some Dir)) ∧
        (tree (files (save_file self flow_id file_name data w).2) = t1 ∨
         ∃ l, tree (files (save_file self flow_id file_name data w).2)
              = <[l := File data]> t1).
Proof.
  rewrite save_file_run. simpl.
  destruct (mkdir _ (files w)) as [res f1] eqn:Emk.
  exists (tree f1). split; [by apply (mkdir_adds _ _ _ _ Emk) |].
  destruct res as [e|]; [by left |].
  destruct (write_bytes _ data f1) as [e|f2] eqn:Ewr; [by left |]. simpl.
  apply write_bytes_target in Ewr as (l & _ & _ & ->). right. eauto.
Qed.

(** X7. [save_file] touches at most one regular file: apart from one
    location, the regular files on the disk and their contents are the same
    before and after the call, whether it returns or raises. *)
Theorem save_file_touches_one_file flow_id file_name data w :
  ∃ target, ∀ loc, loc ≠ target → ∀ x,
    tree (files w) !! loc = Some (File x) ↔
    tree (files (save_file self flow_id file_name data w).2) !! loc = Some (File x).
Proof.
  destruct (save_file_tree flow_id file_name data w) as (t1 & Hadd & Hput).
  assert (∀ loc x, tree (files w) !! loc = Some (File x) ↔ t1 !! loc = Some (File x))
    as Hmk.
  { intros loc x. destruct (Hadd loc) as [-> | [H1 H2]]; [done |].
    rewrite H1, H2. by split. }
  destruct Hput as [-> | [l ->]].
  - exists []. intros loc _ x. apply Hmk.
  - exists l. intros loc Hne x. rewrite lookup_insert_ne by done. apply Hmk.
Qed.

(** X8. [delete_file] removes at most one regular file and changes nothing
    else: either the disk is unchanged or exactly one regular file is gone. *)
Theorem delete_file_removes_one flow_id file_name w :
  files (delete_file self flow_id file_name w).2 = files w ∨
  ∃ loc x, tree (files w) !! loc = Some (File x) ∧
           tree (files (delete_file self flow_id file_name w).2)
           = delete loc (tree (files w)).
Proof.
  rewrite delete_file_run. simpl.
  destruct (exists_ _ _) as [e|[]]; [by left | | by left].
  destruct (unlink _ (files w)) as [e|f'] eqn:Eun; [by left |]. simpl.
  right. by apply unlink_target in Eun.
Qed.

(** *** Save, list, get and delete, one after the other *)

Lemma saved_resolves flow_id file_name data w w1 :
  save_file self flow_id file_name data w = (inr tt, w1) →
  ∃ loc, resolve (files w1) (data_dir self // flow_id // file_name)
         = Found loc (File data).
Proof.
  intros Hsave. apply get_file_ok_iff. rewrite (get_after_save _ _ _ _ _ _ Hsave). eauto.
Qed.

Lemma saved_wf flow_id file_name data w w1 :
  lexical (data_dir self) → wf (tree (files w)) →
  save_file self flow_id file_name data w = (inr tt, w1) → wf (tree (files w1)).
Proof.
  intros Hlex Hwf Hsave.
  pose proof (step_wf self (Save flow_id file_name data) w Hlex Hwf) as H.
  simpl in H. by rewrite Hsave in H.
Qed.

(** Every entry of a directory whose path leaves room for a name has room. *)
Lemma entries_have_room f p loc :
  wf (tree f) → (len (str p) + 1 + NAME_MAX < PATH_MAX)%Z →
  ∀ n, n ∈ entries (tree f) loc →
       (len (str (make_child_relpath p n)) < PATH_MAX)%Z.
Proof.
  intros [_ Hwf] Hroom n Hn%elem_of_entries.
  destruct (Hwf loc n Hn) as (_ & _ & Hmax).
  pose proof (len_child_le p n). lia.
Qed.

(** X9. What was saved is listed: after a save with a plain file name has
    returned, in a flow directory whose path leaves room for a name,
    [list_files] on the same flow returns and the file name is in its
    result. *)
Theorem saved_file_is_listed flow_id file_name data w w1 :
  lexical (data_dir self) → wf (tree (files w)) → plain file_name →
  (len (str (data_dir self // flow_id)) + 1 + NAME_MAX < PATH_MAX)%Z →
  save_file self flow_id file_name data w = (inr tt, w1) →
  ∃ names w2, list_files self flow_id w1 = (inr names, w2) ∧ file_name ∈ names.
Proof.
  intros Hlex Hwf Hplain Hroom Hsave.
  pose proof (saved_wf _ _ _ _ _ Hlex Hwf Hsave) as Hwf1.
  destruct (saved_resolves _ _ _ _ _ Hsave) as [l Hres].
  pose proof Hplain as (Hne & _ & Hdd & _).
  rewrite (joinpath_plain _ file_name) in Hres by done.
  pose proof Hres as Hres'.
  apply resolve_child_found in Hres' as (loc & Hfolder & -> & _ & Hfile); [|done..].
  pose proof (list_files_found self flow_id w1 loc Hwf1 Hfolder
                (entries_have_room _ _ _ Hwf1 Hroom)) as Hlist.
  eexists _, _. split; [exact Hlist |].
  apply list_elem_of_filter. split.
  - unfold regular. by rewrite Hfile.
  - apply elem_of_entries. by rewrite Hfile.
Qed.

(** X10. Whatever [list_files] returns can be read: on a well-formed disk,
    [get_file] on the same flow returns for every name in the result. *)
Theorem listed_file_is_readable flow_id w names w' n :
  wf (tree (files w)) →
  list_files self flow_id w = (inr names, w') → n ∈ names →
  ∃ content w'', get_file self flow_id n w = (inr content, w'').
Proof.
  intros Hwf (loc & Hfolder & -> & _)%list_files_inr Hin.
  apply list_elem_of_filter in Hin as [Hfile Hentry].
  apply elem_of_entries in Hentry. destruct Hwf as [_ Hwf].
  destruct (Hwf _ _ Hentry) as (_ & Hplain & _).
  apply is_file_true in Hfile as (l & content & Hres).
  exists content. apply get_file_ok_iff. exists l.
  by rewrite (joinpath_plain _ n).
Qed.

(** X11. Save, delete, get: after a save that returned, [delete_file] on
    the same key returns, and [get_file] then raises [FileNotFoundError]. *)
Theorem save_delete_get flow_id file_name data w w1 :
  save_file self flow_id file_name data w = (inr tt, w1) →
  ∃ w2 w3,
    delete_file self flow_id file_name w1 = (inr tt, w2) ∧
    get_file self flow_id file_name w2
    = (inl (FileNotFoundError (not_found_msg flow_id file_name)), w3).
Proof.
  intros Hsave. destruct (saved_resolves _ _ _ _ _ Hsave) as [loc Hres].
  rewrite delete_file_run. simpl. unfold exists_ at 1, stat_test. rewrite Hres.
  destruct (unlink _ (files w1)) as [e|f'] eqn:Eun.
  { unfold unlink in Eun. by rewrite Hres in Eun. }
  eexists _, _. split; [done |].
  apply unlink_exists in Eun. by rewrite get_file_absent.
Qed.

(** X12. Deleting twice is deleting once: after a [delete_file] that
    returned, the same call returns again, finds nothing, logs the warning
    and leaves the disk as it is. *)
Theorem delete_file_twice flow_id file_name w w1 :
  delete_file self flow_id file_name w = (inr tt, w1) →
  delete_file self flow_id file_name w1
  = (inr tt,
     mkWorld (files w1)
       (trace w1 ++ [Log WARNING (delete_missing_msg flow_id file_name)])).
Proof.
  rewrite delete_file_run. simpl.
  destruct (exists_ (files w) _) as [e|[]] eqn:Hex; [done | |].
  - destruct (unlink _ (files w)) as [e|f'] eqn:Eun; [done |].
    intros [= <-]. apply unlink_exists in Eun.
    rewrite delete_file_run. simpl. by rewrite Eun.
  - intros [= <-]. rewrite delete_file_run. simpl. by rewrite Hex.
Qed.

(** X13. Two keys with the same joined path are the same file: what was
    saved under one is what [get_file] returns under the other. *)
Theorem same_path_same_file flow_id file_name flow_id' file_name' data w w1 :
  data_dir self // flow_id // file_name = data_dir self // flow_id' // file_name' →
  save_file self flow_id file_name data w = (inr tt, w1) →
  ∃ w2, get_file self flow_id' file_name' w1 = (inr data, w2).
Proof.
  intros Hpath Hsave. apply get_file_ok_iff. rewrite <- Hpath.
  by eapply saved_resolves.
Qed.

(** *** The ways [save_file] fails *)

Lemma mkdir_on_file p f :
  is_file f p = inr true → mkdir p f = (Some (FileExistsError (str p)), f).
Proof.
  intros (loc & content & Hres)%is_file_true. unfold mkdir.
  assert (os_mkdir p f = inl (FileExistsError (str p)) ∧ is_dir f p = inr false)
    as [Hmk Hd].
  { unfold os_mkdir, is_dir, stat_test. by rewrite Hres. }
  revert Hmk. generalize (str p) as sp. intros sp Hmk.
  destruct p as [a parts]. simpl.
  rewrite <- (reverse_involutive parts) in Hmk, Hd.
  destruct (reverse parts); simpl; rewrite Hmk; unfold exist_ok; by rewrite Hd.
Qed.

(** X14. A regular file where the flow directory should be: [save_file]
    raises [FileExistsError] from [mkdir], before the [try]: nothing is
    written, nothing is logged, the disk is unchanged. *)
Theorem save_file_flow_is_file flow_id file_name data w :
  is_file (files w) (data_dir self // flow_id) = inr true →
  save_file self flow_id file_name data w
  = (inl (FileExistsError (str (data_dir self // flow_id))),
     mkWorld (files w) (trace w ++ [Call Mkdir (data_dir self // flow_id)])).
Proof.
  intros Hfile. rewrite save_file_run. simpl. by rewrite (mkdir_on_file _ _ Hfile).
Qed.

(** X15. A directory where the file should be: with the flow directory in
    place, [save_file] raises [IsADirectoryError] for the full path, logs one
    ERROR record and leaves the disk unchanged. *)
Theorem save_file_on_directory flow_id file_name data w :
  is_dir (files w) (data_dir self // flow_id) = inr true →
  is_dir (files w) (data_dir self // flow_id // file_name) = inr true →
  save_file self flow_id file_name data w
  = (inl (IsADirectoryError (build_full_path self flow_id file_name)),
     mkWorld (files w)
       (trace w ++ [Call Mkdir (data_dir self // flow_id);
                    Call WriteBytes (data_dir self // flow_id // file_name);
                    Log ERROR (save_error_msg flow_id file_name)])).
Proof.
  intros Hflow [l Hdir]%is_dir_true. rewrite save_file_run. simpl.
  rewrite (mkdir_existing _ _ Hflow). unfold write_bytes. rewrite Hdir.
  by rewrite <- !app_assoc.
Qed.

Lemma joinpath_empty p s : s = "" ∨ s = "." → p // s = p.
Proof.
  intros [-> | ->]; destruct p as [a l]; unfold joinpath; simpl;
    by rewrite app_nil_r.
Qed.

(** X16. An empty file name (or [.]) names the flow directory itself:
    [save_file] never returns for it, and it creates or changes no regular
    file. *)
Theorem save_file_empty_name flow_id file_name data w :
  file_name = "" ∨ file_name = "." →
  ∃ e w', save_file self flow_id file_name data w = (inl e, w') ∧
          ∀ loc x, tree (files w) !! loc = Some (File x) ↔
                   tree (files w') !! loc = Some (File x).
Proof.
  intros Hname. rewrite save_file_run. simpl. rewrite (joinpath_empty _ _ Hname).
  destruct (mkdir _ (files w)) as [res f1] eqn:Emk.
  assert (∀ loc x, tree (files w) !! loc = Some (File x) ↔ tree f1 !! loc = Some (File x))
    as Hsame.
  { intros loc x. destruct (mkdir_adds _ _ _ _ Emk) as [_ Hadd].
    destruct (Hadd loc) as [-> | [H1 H2]]; [done |]. rewrite H1, H2. by split. }
  destruct res as [e|]; [by eauto |].
  apply mkdir_is_dir, is_dir_true in Emk as [l0 Hd].
  unfold write_bytes. rewrite Hd. eauto.
Qed.

(** *** A flow comes into being with its first file *)

Lemma singleton_list {A} (l : list A) x :
  NoDup l → (∀ y, y ∈ l ↔ y = x) → l = [x].
Proof.
  intros Hnd Hiff. destruct l as [|y l].
  - assert (x ∈ @nil A) as Hin by (by apply Hiff). by apply elem_of_nil in Hin.
  - assert (y = x) as -> by (apply Hiff; by left).
    inversion_clear Hnd as [|? ? Hx Hl]. destruct l as [|z l]; [done |].
    assert (z = x) as -> by (apply Hiff; right; by left).
    destruct Hx. by left.
Qed.

(** X17. The first save into a flow that does not exist yet, with names
    and a path that fit the limits of the system: before it [list_files]
    raises [FileNotFoundError]; the save creates the flow directory and
    returns; after it [list_files] returns exactly the one file name. *)
Theorem first_save_creates_flow flow_id file_name data w rloc :
  lexical (data_dir self) → wf (tree (files w)) →
  resolve (files w) (data_dir self) = Found rloc Dir →
  plain flow_id → plain file_name →
  (len flow_id ≤ NAME_MAX)%Z → (len file_name ≤ NAME_MAX)%Z →
  (len (str (data_dir self // flow_id // file_name)) < PATH_MAX)%Z →
  tree (files w) !! (rloc ++ [flow_id]) = None →
  (∃ w0, list_files self flow_id w
         = (inl (FileNotFoundError (no_flow_msg flow_id)), w0)) ∧
  ∃ w1 w2,
    save_file self flow_id file_name data w = (inr tt, w1) ∧
    tree (files w1) !! (rloc ++ [flow_id]) = Some Dir ∧
    list_files self flow_id w1 = (inr [file_name], w2).
Proof.
  intros Hlex Hwf Hroot Ha Hb Hla Hlb Hlen Hnone.
  pose proof Ha as (_ & _ & Hdda & _ & Hnula).
  pose proof Hb as (Hneb & _ & _).
  assert (len (str (make_child_relpath (data_dir self) flow_id)) < PATH_MAX)%Z as Hlen'.
  { rewrite !joinpath_plain in Hlen by done.
    pose proof (len_child_ge (make_child_relpath (data_dir self) flow_id) file_name Hneb).
    lia. }
  assert (∀ n, tree (files w) !! ((rloc ++ [flow_id]) ++ [n]) = None) as Hempty.
  { intros n. destruct (tree (files w) !! ((rloc ++ [flow_id]) ++ [n])) eqn:E; [|done].
    destruct Hwf as [_ Hwf]. destruct (Hwf (rloc ++ [flow_id]) n) as [Hd _];
      [by rewrite E | congruence]. }
  split.
  - rewrite list_files_absent; [by eauto |]. right.
    unfold is_dir, stat_test. rewrite joinpath_plain by done.
    by rewrite (resolve_child _ _ _ _ Hroot Hdda Hnula Hla Hlen'), Hnone.
  - destruct (save_file_returns self flow_id file_name data w rloc Hroot Ha Hb Hla Hlb Hlen)
      as (w1 & Hsave & Hroot1 & Hdir1 & Hfile1).
    { congruence. }
    { specialize (Hempty file_name). rewrite <- app_assoc in Hempty. simpl in Hempty.
      congruence. }
    pose proof (saved_wf _ _ _ _ _ Hlex Hwf Hsave) as Hwf1.
    assert (resolve (files w1) (data_dir self // flow_id)
            = Found (rloc ++ [flow_id]) Dir) as Hflow1.
    { rewrite joinpath_plain by done.
      by rewrite (resolve_child _ _ _ _ Hroot1 Hdda Hnula Hla Hlen'), Hdir1. }
    assert (tree (files w1) !! ((rloc ++ [flow_id]) ++ [file_name]) = Some (File data))
      as Hfile1' by (by rewrite <- app_assoc).
    assert (∀ n, is_Some (tree (files w1) !! ((rloc ++ [flow_id]) ++ [n])) →
                 n = file_name) as Honly.
    { intros n Hn.
      destruct (plain_inside _ Ha) as [Hia Hpa]. destruct (plain_inside _ Hb) as [Hib Hpb].
      destruct (save_file_inside self flow_id file_name data w rloc Hroot Hia Hib)
        as [_ Hchange].
      rewrite Hsave in Hchange. simpl in Hchange.
      specialize (Hchange ((rloc ++ [flow_id]) ++ [n])).
      rewrite Hpa, Hpb in Hchange.
      destruct Hchange as [(pre & Hpre & Hprefix & Heq & _) | (Heq & _)].
      - rewrite Hempty. intros Hbad. rewrite Hbad in Hn. by destruct Hn.
      - rewrite <- app_assoc in Heq. apply app_inv_head in Heq.
        destruct Hprefix as [k Hk]. destruct pre as [|x pre]; [done |].
        destruct pre; [|by destruct pre]. simpl in Heq. by injection Heq.
      - rewrite <- app_assoc in Heq. apply app_inv_head in Heq. simpl in Heq.
        by injection Heq. }
    exists w1. eexists. split; [done |]. split; [done |].
    rewrite (list_files_found self flow_id w1 _ Hwf1 Hflow1).
    + f_equal. f_equal.
      apply singleton_list; [apply NoDup_filter, NoDup_entries |].
      intros n. rewrite list_elem_of_filter, elem_of_entries. split.
      * intros [_ Hn]. by apply Honly.
      * intros ->. unfold regular. rewrite Hfile1'. by eauto.
    + intros n Hn%elem_of_entries. apply Honly in Hn as ->.
      by rewrite (joinpath_plain _ file_name) in Hlen.
Qed.

End More.

(** *** The statements at sample states *)

Import Sample Sample2.

Lemma plain_literal s : bool_decide (plain s) = true → plain s.
Proof. apply bool_decide_eq_true. Qed.

Lemma directories_stay_witness :
  tree nested !! ["data"; "f1"] = Some Dir ∧
  tree (files (step svc (Delete "f1" "a.txt") (fresh nested))) !! ["data"; "f1"] = Some Dir.
Proof.
  assert (tree (files (fresh nested)) !! ["data"; "f1"] = Some Dir) as H
    by (vm_compute; reflexivity).
  split; [exact H |].
  exact (directories_stay svc (Delete "f1" "a.txt") (fresh nested) ["data"; "f1"] H).
Defined.

Lemma saved_file_is_listed_witness :
  (len (str (data_dir svc // "f1")) + 1 + NAME_MAX < PATH_MAX)%Z ∧
  save_file svc "f1" "x.txt" [] (fresh bare) = (inr tt, saved_empty) ∧
  ∃ names w2, list_files svc "f1" saved_empty = (inr names, w2) ∧ "x.txt" ∈ names.
Proof.
  assert (len (str (data_dir svc // "f1")) + 1 + NAME_MAX < PATH_MAX)%Z as Hroom
    by (vm_compute; reflexivity).
  assert (save_file svc "f1" "x.txt" [] (fresh bare) = (inr tt, saved_empty)) as H
    by (vm_compute; reflexivity).
  split; [exact Hroom |]. split; [exact H |].
  apply (saved_file_is_listed svc "f1" "x.txt" [] (fresh bare) saved_empty
           svc_lexical bare_wf); [| exact Hroom | exact H].
  apply plain_literal. vm_compute. reflexivity.
Defined.

(** Without the room, a save returns and the listing that follows raises:
    the flow directory has an entry whose path is too long. *)
Lemma saved_file_is_listed_needs_room :
  (save_file deep_svc "f" "x" [] (fresh deep)).1 = inr tt ∧
  (list_files deep_svc "f" (save_file deep_svc "f" "x" [] (fresh deep)).2).1
  = inl (OSError 36 (str (data_dir deep_svc // "f" // entry_100))).
Proof. split; vm_compute; reflexivity. Qed.

Lemma listed_file_is_readable_witness :
  list_files svc "f1" (fresh nested)
  = (inr ["a.txt"], mkWorld nested [Log INFO "Listed 1 files in flow f1."]) ∧
  ∃ content w'', get_file svc "f1" "a.txt" (fresh nested) = (inr content, w'').
Proof.
  assert (list_files svc "f1" (fresh nested)
          = (inr ["a.txt"], mkWorld nested [Log INFO "Listed 1 files in flow f1."])) as H
    by (vm_compute; reflexivity).
  split; [exact H |].
  apply (listed_file_is_readable svc "f1" (fresh nested) ["a.txt"] _ "a.txt" nested_wf H).
  by left.
Defined.

Lemma save_delete_get_witness :
  save_file svc "f1" "x.txt" [] (fresh bare) = (inr tt, saved_empty) ∧
  ∃ w2 w3,
    delete_file svc "f1" "x.txt" saved_empty = (inr tt, w2) ∧
    get_file svc "f1" "x.txt" w2
    = (inl (FileNotFoundError "File x.txt not found in flow f1"), w3).
Proof.
  assert (save_file svc "f1" "x.txt" [] (fresh bare) = (inr tt, saved_empty)) as H
    by (vm_compute; reflexivity).
  split; [exact H |].
  exact (save_delete_get svc "f1" "x.txt" [] (fresh bare) saved_empty H).
Defined.

Lemma delete_file_twice_witness :
  delete_file svc "f1" "a.txt" (fresh nested) = (inr tt, deleted_once) ∧
  delete_file svc "f1" "a.txt" deleted_once
  = (inr tt,
     mkWorld (files deleted_once)
       (trace deleted_once
        ++ [Log WARNING "Attempted to delete non-existent file a.txt in flow f1."])).
Proof.
  assert (delete_file svc "f1" "a.txt" (fresh nested) = (inr tt, deleted_once)) as H
    by (vm_compute; reflexivity).
  split; [exact H |].
  exact (delete_file_twice svc "f1" "a.txt" (fresh nested) deleted_once H).
Defined.

Lemma same_path_same_file_witness :
  data_dir svc // "f1/a" // "b" = data_dir svc // "f1" // "a/b" ∧
  save_file svc "f1/a" "b" ["d"%byte] (fresh bare) = (inr tt, saved_deep) ∧
  ∃ w2, get_file svc "f1" "a/b" saved_deep = (inr ["d"%byte], w2).
Proof.
  assert (data_dir svc // "f1/a" // "b" = data_dir svc // "f1" // "a/b") as Hp
    by (vm_compute; reflexivity).
  assert (save_file svc "f1/a" "b" ["d"%byte] (fresh bare) = (inr tt, saved_deep)) as H
    by (vm_compute; reflexivity).
  split; [exact Hp |]. split; [exact H |].
  exact (same_path_same_file svc "f1/a" "b" "f1" "a/b" ["d"%byte] (fresh bare)
           saved_deep Hp H).
Defined.

Lemma save_file_flow_is_file_witness :
  is_file clash (data_dir svc // "f1") = inr true ∧
  save_file svc "f1" "x.txt" ["x"%byte] (fresh clash)
  = (inl (FileExistsError "/data/f1"), mkWorld clash [Call Mkdir (data_dir svc // "f1")]).
Proof.
  assert (is_file (files (fresh clash)) (data_dir svc // "f1") = inr true) as H
    by (vm_compute; reflexivity).
  split; [exact H |].
  exact (save_file_flow_is_file svc "f1" "x.txt" ["x"%byte] (fresh clash) H).
Defined.

Lemma save_file_on_directory_witness :
  is_dir nested (data_dir svc // "f1" // "sub") = inr true ∧
  save_file svc "f1" "sub" ["x"%byte] (fresh nested)
  = (inl (IsADirectoryError "/data/f1/sub"),
     mkWorld nested
       [Call Mkdir (data_dir svc // "f1");
        Call WriteBytes (data_dir svc // "f1" // "sub");
        Log ERROR "Error saving file sub in flow f1"]).
Proof.
  assert (is_dir (files (fresh nested)) (data_dir svc // "f1") = inr true) as H1
    by (vm_compute; reflexivity).
  assert (is_dir (files (fresh nested)) (data_dir svc // "f1" // "sub") = inr true) as H2
    by (vm_compute; reflexivity).
  split; [exact H2 |].
  exact (save_file_on_directory svc "f1" "sub" ["x"%byte] (fresh nested) H1 H2).
Defined.

Lemma save_file_empty_name_witness :
  ∃ e w', save_file svc "f1" "" ["x"%byte] (fresh bare) = (inl e, w') ∧
          ∀ loc x, tree bare !! loc = Some (File x) ↔
                   tree (files w') !! loc = Some (File x).
Proof.
  apply (save_file_empty_name svc "f1" "" ["x"%byte] (fresh bare)). by left.
Defined.

Lemma first_save_creates_flow_witness :
  tree bare !! (["data"] ++ ["f1"]) = None ∧
  (len (str (data_dir svc // "f1" // "x.txt")) < PATH_MAX)%Z ∧
  (∃ w0, list_files svc "f1" (fresh bare)
         = (inl (FileNotFoundError "Flow f1 directory does not exist."), w0)) ∧
  ∃ w1 w2,
    save_file svc "f1" "x.txt" ["x"%byte] (fresh bare) = (inr tt, w1) ∧
    tree (files w1) !! (["data"] ++ ["f1"]) = Some Dir ∧
    list_files svc "f1" w1 = (inr ["x.txt"], w2).
Proof.
  assert (tree (files (fresh bare)) !! (["data"] ++ ["f1"]) = None) as Hnone
    by (vm_compute; reflexivity).
  assert (len (str (data_dir svc // "f1" // "x.txt")) < PATH_MAX)%Z as Hlen
    by (vm_compute; reflexivity).
  split; [exact Hnone |]. split; [exact Hlen |].
  apply (first_save_creates_flow svc "f1" "x.txt" ["x"%byte] (fresh bare) ["data"]
           svc_lexical bare_wf).
  - vm_compute. reflexivity.
  - apply plain_literal. vm_compute. reflexivity.
  - apply plain_literal. vm_compute. reflexivity.
  - apply (bool_decide_eq_true_1 (len "f1" ≤ NAME_MAX)%Z). vm_compute. reflexivity.
  - apply (bool_decide_eq_true_1 (len "x.txt" ≤ NAME_MAX)%Z). vm_compute. reflexivity.
  - exact Hlen.
  - exact Hnone.
Defined.

Lemma save_then_others_then_get_witness :
  save_file svc "f1" "x.txt" [] (fresh bare) = (inr tt, saved_empty) ∧
  ∃ w2, get_file svc "f1" "x.txt"
          (run_ops svc [Save "f1" "y.txt" ["y"%byte]; Delete "f2" "x.txt";
                        ListFiles "f1"; Delete "f1" "y.txt"] saved_empty)
        = (inr [], w2).
Proof.
  assert (save_file svc "f1" "x.txt" [] (fresh bare) = (inr tt, saved_empty)) as H
    by (vm_compute; reflexivity).
  split; [exact H |].
  apply (save_then_others_then_get svc "f1" "x.txt" [] (fresh bare) saved_empty ["data"]).
  - vm_compute. reflexivity.
  - apply plain_literal. vm_compute. reflexivity.
  - apply plain_literal. vm_compute. reflexivity.
  - exact H.
  - repeat constructor; simpl; try (apply plain_literal; vm_compute; reflexivity);
      intros [=].
Defined.

End StorageMore.
